(** * SimpleWallet: derivation, balance scan and transfer

    A shallow embedding of the [SimpleWallet] class of the command-line
    wallet.  The class talks to three collaborators that are not part of
    the repository: the [viem] helpers ([isAddress], [parseEther],
    [formatEther], [mnemonicToAccount]), the JSON-RPC clients
    ([publicClient], [walletClient]) and the JavaScript runtime
    ([parseFloat], [console]).  They are the fields of [Collaborators];
    every method of the class is a definition over them, written in a small
    state-and-exception monad that also records the calls a run makes.

    The repository holds two versions of the class.  The later one adds
    [getPrivateKey] and [getSeedPhrases]; [transfer] and
    [listWalletsWithBalance] make the same calls in the same order in both
    (the earlier one only builds the wallet client before the fee lookup
    instead of after it), so one embedding serves both. *)

From stdpp Require Import gmap strings list pretty.
From Stdlib Require Import ZArith Lia Ascii.

Local Open Scope Z_scope.

(** ** Exceptions *)

(** The failure kinds of the error taxonomy. *)
Inductive ErrorKind :=
  | InvalidSeedPhrase
  | InvalidInput
  | InsufficientFunds
  | NetworkError
  | RejectedTransaction
  | Timeout.

(** What a method can throw.  The first five are the [new Error(...)] of the
    class itself (the argument is what the message interpolates), the next
    two are thrown inside [viem] by [mnemonicToAccount] and [parseEther],
    and [ClientError] is whatever an RPC client call raised. *)
Inductive exn :=
  | InvalidRecipientAddress (toAddress : string)
  | InvalidAddress (address : string)
  | InsufficientBalance (amountEth : string)
  | InsufficientBalanceForGas
  | FailedToDerivePrivateKey
  | InvalidMnemonic
  | InvalidDecimalNumberError (value : string)
  | ClientError (k : ErrorKind).

Definition kind_of (e : exn) : option ErrorKind :=
  match e with
  | InvalidRecipientAddress _ | InvalidAddress _ => Some InvalidInput
  | InvalidDecimalNumberError _ => Some InvalidInput
  | InsufficientBalance _ | InsufficientBalanceForGas => Some InsufficientFunds
  | InvalidMnemonic => Some InvalidSeedPhrase
  | FailedToDerivePrivateKey => None
  | ClientError k => Some k
  end.

Inductive Result (A : Type) :=
  | Ok (a : A)
  | Err (e : exn).
Arguments Ok {A} a.
Arguments Err {A} e.

(** ** Data *)

Module Account.
(** The part of a [viem] HD account the wallet reads: [account.address]
    and [account.getHdKey().privateKey] (a byte array, or [null]). *)
Record t := mk { address : string; privateKey : option (list Byte.byte) }.
End Account.

Module Receipt.
Record t := mk { blockNumber : Z }.
End Receipt.

Module WalletInfo.
Record t := mk {
  address : string;
  balance : string;
  balanceEth : string;
  index : Z;
  seedPhrase : string
}.
End WalletInfo.

(** ** The calls a run makes *)

Inductive event :=
  | MnemonicToAccount (seedPhrase : string) (index : Z) (ok : bool)
  | GetBalance (address : string) (r : Result Z)
  | GetGasPrice (r : Result Z)
  | SendTransaction (from to : string) (value : Z) (r : Result string)
  | WaitForTransactionReceipt (hash : string) (r : Result Receipt.t)
  | ConsoleLog (line : string)
  | ConsoleError (line : string) (error : exn).

Definition is_ledger_call (ev : event) : bool :=
  match ev with
  | GetBalance _ _ | GetGasPrice _ | SendTransaction _ _ _ _
  | WaitForTransactionReceipt _ _ => true
  | _ => false
  end.

Definition is_submit (ev : event) : bool :=
  match ev with SendTransaction _ _ _ _ => true | _ => false end.

Definition is_derivation (ev : event) : bool :=
  match ev with MnemonicToAccount _ _ _ => true | _ => false end.

Definition ledger_calls (t : list event) : list event := filter is_ledger_call t.
Definition submits (t : list event) : nat := length (filter is_submit t).

(** ** Strings *)

(** [s.split(sep)] for a one-character separator: never empty, and empty
    fields are kept. *)
Fixpoint split (sep : Ascii.ascii) (s : string) : list string :=
  match s with
  | EmptyString => [EmptyString]
  | String c s' =>
      if Ascii.eqb c sep then EmptyString :: split sep s'
      else match split sep s' with
           | [] => [String c EmptyString]
           | w :: ws => String c w :: ws
           end
  end.

(** [ws.join(sep)]. *)
Fixpoint join (sep : string) (ws : list string) : string :=
  match ws with
  | [] => ""
  | [w] => w
  | w :: ws' => w +:+ sep +:+ join sep ws'
  end.

(** [ws.slice(0, n)]. *)
Definition slice0 (n : nat) (ws : list string) : list string := take n ws.

(** [seedPhrase.split(" ").slice(0, 3).join(" ") + "..."] *)
Definition preview (seedPhrase : string) : string :=
  join " " (slice0 3 (split " "%char seedPhrase)) +:+ "...".

Definition hex_digit (n : N) : Ascii.ascii :=
  match N.to_nat n with
  | 0 => "0" | 1 => "1" | 2 => "2" | 3 => "3" | 4 => "4" | 5 => "5"
  | 6 => "6" | 7 => "7" | 8 => "8" | 9 => "9" | 10 => "a" | 11 => "b"
  | 12 => "c" | 13 => "d" | 14 => "e" | _ => "f"
  end%nat%char.

(** [Buffer.from(bytes).toString("hex")] *)
Fixpoint toString_hex (bytes : list Byte.byte) : string :=
  match bytes with
  | [] => ""
  | b :: bs =>
      let n := Byte.to_N b in
      String (hex_digit (n / 16)%N) (String (hex_digit (n mod 16)%N) (toString_hex bs))
  end.

(** ** Collaborators and store *)

(** Arrays of strings live in a heap and are handed around by reference. *)
Definition loc := nat.

(** What the class imports.  [W] is the state of the remote ledger as seen
    through the RPC transport (a client call may change it and may fail);
    [F] is the type of JavaScript numbers [parseFloat] returns and [gt] is
    [>] on them.  [mnemonicToAccount] and [parseEther] return [None] where
    the library throws. *)
Record Collaborators (W F : Type) := {
  isAddress : string -> bool;
  mnemonicToAccount : string -> Z -> option Account.t;
  formatEther : Z -> string;
  parseEther : string -> option Z;
  parseFloat : string -> F;
  gt : F -> F -> bool;
  getBalance : string -> W -> Result Z * W;
  getGasPrice : W -> Result Z * W;
  sendTransaction : Account.t -> string -> Z -> W -> Result string * W;
  waitForTransactionReceipt : string -> W -> Result Receipt.t * W
}.
Arguments isAddress {W F}.
Arguments mnemonicToAccount {W F}.
Arguments formatEther {W F}.
Arguments parseEther {W F}.
Arguments parseFloat {W F}.
Arguments gt {W F}.
Arguments getBalance {W F}.
Arguments getGasPrice {W F}.
Arguments sendTransaction {W F}.
Arguments waitForTransactionReceipt {W F}.

Record store (W : Type) := Store { heap : gmap loc (list string); ledger : W }.
Arguments Store {W}.
Arguments heap {W}.
Arguments ledger {W}.

(** A run ends with a value or an exception, a store, and the calls it made. *)
Record outcome (W A : Type) := Outcome {
  result : Result A;
  final : store W;
  emitted : list event
}.
Arguments Outcome {W A}.
Arguments result {W A}.
Arguments final {W A}.
Arguments emitted {W A}.

Definition M (W A : Type) : Type := store W -> outcome W A.

Definition ret {W A} (a : A) : M W A := fun s => Outcome (Ok a) s [].

Definition throw {W A} (e : exn) : M W A := fun s => Outcome (Err e) s [].

(** [prepend t o]: the run [o], after the calls [t]. *)
Definition prepend {W A} (t : list event) (o : outcome W A) : outcome W A :=
  match o with
  | Outcome r s' t' => Outcome r s' (t ++ t')
  end.

Definition bind {W A B} (m : M W A) (f : A -> M W B) : M W B := fun s =>
  match m s with
  | Outcome (Ok a) s' t => prepend t (f a s')
  | Outcome (Err e) s' t => Outcome (Err e) s' t
  end.

(** [try { body } catch (error) { handler }]: what the body did before it
    threw stays done. *)
Definition try_catch {W A} (body : M W A) (handler : exn -> M W A) : M W A := fun s =>
  match body s with
  | Outcome (Ok a) s' t => Outcome (Ok a) s' t
  | Outcome (Err e) s' t => prepend t (handler e s')
  end.

Definition emit {W} (ev : event) : M W unit := fun s => Outcome (Ok tt) s [ev].

Notation "'let*' x ':=' m 'in' k" := (bind m (fun x => k))
  (at level 10, x name, m at level 100, k at level 200).
Notation "m ';;' k" := (bind m (fun _ => k))
  (at level 100, k at level 200, right associativity).

(** [for (const x of xs) body], threading what the body accumulates. *)
Fixpoint for_of {W X A} (xs : list X) (body : A -> X -> M W A) (acc : A) : M W A :=
  match xs with
  | [] => ret acc
  | x :: xs' => let* acc' := body acc x in for_of xs' body acc'
  end.

(** Heap access.  A reference held by a live object always points to an
    array, so the default is never taken on a well-formed store. *)
Definition load {W} (l : loc) : M W (list string) := fun s =>
  Outcome (Ok (default [] (heap s !! l))) s [].

Definition alloc {W} (xs : list string) : M W loc := fun s =>
  let l := fresh (dom (heap s)) in
  Outcome (Ok l) (Store (<[l := xs]> (heap s)) (ledger s)) [].

(** Any in-place change of the array at [l]: [push], [pop], [splice],
    [a[i] = x], [a.length = n], ... each is some [f] on the contents. *)
Definition mutate {W} (l : loc) (f : list string -> list string) : M W unit := fun s =>
  Outcome (Ok tt) (Store (<[l := f (default [] (heap s !! l))]> (heap s)) (ledger s)) [].

Definition console_log {W} (line : string) : M W unit := emit (ConsoleLog line).
Definition console_error {W} (line : string) (error : exn) : M W unit :=
  emit (ConsoleError line error).

(** ** The class *)

Record SimpleWallet := { seedPhrases : loc }.

Section Wallet.
Context {W F : Type}.
Variable env : Collaborators W F.

(** [await this.publicClient.getBalance({ address })] *)
Definition publicClient_getBalance (address : string) : M W Z := fun s =>
  let '(r, w) := getBalance env address (ledger s) in
  Outcome r (Store (heap s) w) [GetBalance address r].

(** [await this.publicClient.getGasPrice()] *)
Definition publicClient_getGasPrice : M W Z := fun s =>
  let '(r, w) := getGasPrice env (ledger s) in
  Outcome r (Store (heap s) w) [GetGasPrice r].

(** [await walletClient.sendTransaction({ account, to, value })] *)
Definition walletClient_sendTransaction (account : Account.t) (to : string) (value : Z)
  : M W string := fun s =>
  let '(r, w) := sendTransaction env account to value (ledger s) in
  Outcome r (Store (heap s) w) [SendTransaction (Account.address account) to value r].

(** [await this.publicClient.waitForTransactionReceipt({ hash })] *)
Definition publicClient_waitForTransactionReceipt (hash : string) : M W Receipt.t := fun s =>
  let '(r, w) := waitForTransactionReceipt env hash (ledger s) in
  Outcome r (Store (heap s) w) [WaitForTransactionReceipt hash r].

(** [parseEther(amountEth)], throwing where the library does. *)
Definition parseEther_or_throw (amountEth : string) : M W Z :=
  match parseEther env amountEth with
  | Some wei => ret wei
  | None => throw (InvalidDecimalNumberError amountEth)
  end.

(** Derive wallet from seed phrase and index ([index] defaults to 0). *)
Definition getAccountFromSeed (seedPhrase : string) (index : option Z) : M W Account.t :=
  let index := default 0 index in
  match mnemonicToAccount env seedPhrase index with
  | Some account => emit (MnemonicToAccount seedPhrase index true) ;; ret account
  | None => emit (MnemonicToAccount seedPhrase index false) ;; throw InvalidMnemonic
  end.

(** Check balance of a specific wallet. *)
Definition checkBalance (address : string) : M W string :=
  if negb (isAddress env address) then throw (InvalidAddress address) else
  let* balance := publicClient_getBalance address in
  ret (formatEther env balance).

(** The body of the inner loop of [listWalletsWithBalance], [try] and
    [catch] included. *)
Definition check_index (seedPhrase : string)
    (walletsWithBalance : list WalletInfo.t) (i : nat) : M W (list WalletInfo.t) :=
  try_catch
    (let* account := getAccountFromSeed seedPhrase (Some (Z.of_nat i)) in
     let* balance := publicClient_getBalance (Account.address account) in
     let balanceEth := formatEther env balance in
     if (0 <? balance)%Z then
       ret (walletsWithBalance ++
            [ {| WalletInfo.address := Account.address account;
                 WalletInfo.balance := pretty balance;
                 WalletInfo.balanceEth := balanceEth;
                 WalletInfo.index := Z.of_nat i;
                 WalletInfo.seedPhrase := preview seedPhrase |} ])
     else ret walletsWithBalance)
    (fun error =>
       console_error ("Error checking wallet index " +:+ pretty i +:+ ":") error ;;
       ret walletsWithBalance).

(** List all sub-wallets with balance from seed phrases.  [maxIndex] is a
    count of indices and defaults to 20; the loop counter [i] runs over
    [0, 1, ..., maxIndex - 1]. *)
Definition listWalletsWithBalance (this : SimpleWallet) (maxIndex : option nat)
  : M W (list WalletInfo.t) :=
  let maxIndex := default 20%nat maxIndex in
  let* phrases := load (seedPhrases this) in
  for_of phrases
    (fun walletsWithBalance seedPhrase =>
       for_of (seq 0 maxIndex) (check_index seedPhrase) walletsWithBalance)
    [].

(** Transfer ETH from a wallet to another address. *)
Definition transfer (seedPhrase : string) (walletIndex : Z)
    (toAddress amountEth : string) : M W string :=
  if negb (isAddress env toAddress) then throw (InvalidRecipientAddress toAddress) else
  let* account := getAccountFromSeed seedPhrase (Some walletIndex) in
  let* balance := publicClient_getBalance (Account.address account) in
  let balanceEth := parseFloat env (formatEther env balance) in
  let amount := parseFloat env amountEth in
  if gt env amount balanceEth then throw (InsufficientBalance amountEth) else
  let* gasPrice := publicClient_getGasPrice in
  let estimatedGas := 21000 in
  let gasCost := estimatedGas * gasPrice in
  let* wei := parseEther_or_throw amountEth in
  let totalNeeded := wei + gasCost in
  if (totalNeeded >? balance)%Z then throw InsufficientBalanceForGas else
  let* value := parseEther_or_throw amountEth in
  let* hash := walletClient_sendTransaction account toAddress value in
  console_log ("Transaction sent: " +:+ hash) ;;
  console_log "Waiting for confirmation..." ;;
  let* receipt := publicClient_waitForTransactionReceipt hash in
  console_log ("Transaction confirmed in block: " +:+ pretty (Receipt.blockNumber receipt)) ;;
  ret hash.

(** Get wallet address from seed phrase and index. *)
Definition getWalletAddress (seedPhrase : string) (index : option Z) : M W string :=
  let* account := getAccountFromSeed seedPhrase index in
  ret (Account.address account).

(** Get private key from seed phrase and index. *)
Definition getPrivateKey (seedPhrase : string) (index : option Z) : M W string :=
  let* account := getAccountFromSeed seedPhrase index in
  match Account.privateKey account with
  | None => throw FailedToDerivePrivateKey
  | Some privateKeyBuffer => ret ("0x" +:+ toString_hex privateKeyBuffer)
  end.

(** Get all seed phrases: [[...this.seedPhrases]], a new array. *)
Definition getSeedPhrases (this : SimpleWallet) : M W loc :=
  let* phrases := load (seedPhrases this) in
  alloc phrases.

End Wallet.

(** ** Observing runs *)

Definition fails_with {W A} (o : outcome W A) (k : ErrorKind) : Prop :=
  ∃ e, result o = Err e ∧ kind_of e = Some k.

(** ** Steps of a transfer *)

(** What the steps before the submission produced. *)
Record checked (W : Type) := Checked {
  signer : Account.t;
  balance : Z;
  after_balance : W;
  gasPrice : Z;
  after_fee : W;
  value : Z
}.
Arguments Checked {W}.
Arguments signer {W}.
Arguments balance {W}.
Arguments after_balance {W}.
Arguments gasPrice {W}.
Arguments after_fee {W}.
Arguments value {W}.

(** Every step before the submission succeeds: the recipient is
    well-formed, the signer is derived, the balance is fetched, the
    amount-only comparison does not fire, the fee rate is fetched, the
    amount parses and amount plus fee is covered. *)
Definition passes_checks {W F} (env : Collaborators W F)
    (seedPhrase : string) (walletIndex : Z) (toAddress amountEth : string)
    (s : store W) (c : checked W) : Prop :=
  isAddress env toAddress = true ∧
  mnemonicToAccount env seedPhrase walletIndex = Some (signer c) ∧
  getBalance env (Account.address (signer c)) (ledger s) = (Ok (balance c), after_balance c) ∧
  gt env (parseFloat env amountEth) (parseFloat env (formatEther env (balance c))) = false ∧
  getGasPrice env (after_balance c) = (Ok (gasPrice c), after_fee c) ∧
  parseEther env amountEth = Some (value c) ∧
  value c + 21000 * gasPrice c <= balance c.

(** The calls of a run that passes every check, up to the submission. *)
Definition before_submit {W} (seedPhrase : string) (walletIndex : Z)
    (c : checked W) : list event :=
  [ MnemonicToAccount seedPhrase walletIndex true;
    GetBalance (Account.address (signer c)) (Ok (balance c));
    GetGasPrice (Ok (gasPrice c)) ].

Definition submit {W} (toAddress : string) (c : checked W) (r : Result string) : event :=
  SendTransaction (Account.address (signer c)) toAddress (value c) r.

(** ** Balance scan *)

(** The pairs the two loops visit, phrase by phrase and index by index. *)
Definition enumeration (phrases : list string) (maxIndex : nat) : list (string * nat) :=
  seedPhrase ← phrases; pair seedPhrase <$> seq 0 maxIndex.

(** The loop body of the scan over a list of pairs. *)
Definition scan_pairs {W F} (env : Collaborators W F) (pairs : list (string * nat))
    (found : list WalletInfo.t) : M W (list WalletInfo.t) :=
  for_of pairs (fun found '(seedPhrase, i) => check_index env seedPhrase found i) found.

(** The entry pushed for pair [(seedPhrase, i)] with balance [balance]. *)
Definition entry {W F} (env : Collaborators W F) (account : Account.t)
    (seedPhrase : string) (i : nat) (balance : Z) : WalletInfo.t :=
  {| WalletInfo.address := Account.address account;
     WalletInfo.balance := pretty balance;
     WalletInfo.balanceEth := formatEther env balance;
     WalletInfo.index := Z.of_nat i;
     WalletInfo.seedPhrase := preview seedPhrase |}.

Definition caught_line (i : nat) : string := "Error checking wallet index " +:+ pretty i +:+ ":".

(** Observations on the calls of a run. *)
Definition derivations (t : list event) : list (string * Z) :=
  omap (fun ev => match ev with MnemonicToAccount p i _ => Some (p, i) | _ => None end) t.

Definition balance_replies (t : list event) : list (Result Z) :=
  omap (fun ev => match ev with GetBalance _ r => Some r | _ => None end) t.

(** The exceptions raised by the calls of a run, and those logged to
    [console.error]. *)
Definition raised (t : list event) : list exn :=
  omap (fun ev => match ev with
                  | MnemonicToAccount _ _ false => Some InvalidMnemonic
                  | GetBalance _ (Err e) | GetGasPrice (Err e)
                  | SendTransaction _ _ _ (Err e)
                  | WaitForTransactionReceipt _ (Err e) => Some e
                  | _ => None
                  end) t.


(** A list with the position of each element, counted from [k0]. *)
Definition indexed {A} (k0 : nat) (l : list A) : list (nat * A) :=
  zip (seq k0 (length l)) l.

(** [info] is the entry of the pair [(p, i)] at position [k] of the
    enumeration, for the balance [b] that a call of the run [t] fetched. *)
Inductive is_entry {W F} (env : Collaborators W F) (t : list event)
  : nat * (string * nat) * Z → WalletInfo.t → Prop :=
  | IsEntry (k : nat) (p : string) (i : nat) (b : Z) (account : Account.t) :
      0 < b →
      mnemonicToAccount env p (Z.of_nat i) = Some account →
      GetBalance (Account.address account) (Ok b) ∈ t →
      is_entry env t (k, (p, i), b) (entry env account p i b).

(** What each iteration of a run got from the ledger, one element for
    each derivation and in the order made: the reply to the balance query
    that followed the derivation, or [None] when no query followed. *)
Fixpoint queried (t : list event) : list (option (Result Z)) :=
  match t with
  | [] => []
  | MnemonicToAccount _ _ _ :: t' =>
      match t' with
      | GetBalance _ r :: _ => Some r :: queried t'
      | _ => None :: queried t'
      end
  | _ :: t' => queried t'
  end.

(** The query was made and answered a balance above zero. *)
Definition answered_positive (q : option (Result Z)) : bool :=
  match q with
  | Some (Ok balance) => (0 <? balance)%Z
  | _ => false
  end.

(** The positions of [pairs], counted from [k0], whose query in the run [t]
    answered a balance above zero, each with its pair and the reply. *)
Definition positive_positions (k0 : nat) (pairs : list (string * nat))
    (t : list event) : list (nat * (string * nat) * option (Result Z)) :=
  filter (fun y => answered_positive y.2) (zip (indexed k0 pairs) (queried t)).

Arguments positive_positions : simpl never.

(** A selected position with the reply that selected it. *)
Definition with_reply (x : nat * (string * nat) * Z)
    : nat * (string * nat) * option (Result Z) :=
  (x.1, Some (Ok x.2)).

(** ** The specification's wording, where the code differs *)

(** Amount validation as the specification states it: an amount that does
    not parse to a non-negative decimal makes [transfer] fail with
    [InvalidInput] before any ledger call. *)
Definition validates_amount_first {W F} (env : Collaborators W F)
    (seedPhrase : string) (walletIndex : Z) (toAddress amountEth : string)
    (s : store W) : Prop :=
  (¬ ∃ a, parseEther env amountEth = Some a ∧ 0 <= a) →
  fails_with (transfer env seedPhrase walletIndex toAddress amountEth s) InvalidInput ∧
  ledger_calls (emitted (transfer env seedPhrase walletIndex toAddress amountEth s)) = [].


(** The result of the scan as the specification states it: the pairs
    behind the returned entries, a subsequence of the enumeration, contain
    no pair twice. *)
Definition reports_no_pair_twice {W F} (env : Collaborators W F)
    (this : SimpleWallet) (maxIndex : option nat) (s : store W) : Prop :=
  ∀ phrases sel infos,
    heap s !! seedPhrases this = Some phrases →
    result (listWalletsWithBalance env this maxIndex s) = Ok infos →
    sublist sel.*1 (indexed 0 (enumeration phrases (default 20%nat maxIndex))) →
    Forall2 (is_entry env (emitted (listWalletsWithBalance env this maxIndex s)))
      sel infos →
    NoDup sel.*1.*2.

(** ** A test double

    A call-counting stand-in for the collaborators, used to run the class
    on concrete inputs.  Numbers are kept exactly, in wei, with [None] for
    [NaN]; the string helpers are tables over the strings the examples use. *)

Module Stub.
Definition number : Type := option Z.
Definition ether : Z := 10 ^ 18.

Definition recipient : string := "0x70997970C51812dc3A010C7d01b50e0d17dc79C8".
Definition junk : string :=
  "test test test test test test test test test test test junk".

Definition is_address (s : string) : bool := bool_decide (s = recipient).

Definition derive (seedPhrase : string) (index : Z) : option Account.t :=
  if bool_decide (seedPhrase = junk)
  then Some (Account.mk ("0xacc" +:+ pretty index) (Some [Byte.xac; Byte.x09]))
  else None.

Definition parse_ether (s : string) : option Z :=
  if bool_decide (s = "0") then Some 0
  else if bool_decide (s = "1") then Some ether
  else if bool_decide (s = "2") then Some (2 * ether)
  else if bool_decide (s = "3") then Some (3 * ether)
  else if bool_decide (s = "-1") then Some (- ether)
  else None.

Definition parse_float (s : string) : number := parse_ether s.

Definition format_ether (wei : Z) : string :=
  if bool_decide (wei = 0) then "0"
  else if bool_decide (wei = 1000) then "0.000000000000001"
  else if bool_decide (wei = ether) then "1"
  else if bool_decide (wei = 2 * ether) then "2"
  else if bool_decide (wei = 3 * ether) then "3"
  else "?".

(** [x > y] on numbers; false as soon as one side is [NaN]. *)
Definition greater (x y : number) : bool :=
  match x, y with
  | Some a, Some b => (a >? b)%Z
  | _, _ => false
  end.

(** How the remote side answers; its state counts the requests served. *)
Record behaviour := {
  balance_of : string -> Result Z;
  gas_price : Result Z;
  submit_reply : Result string;
  receipt_reply : Result Receipt.t
}.

Definition env (b : behaviour) : Collaborators nat number := {|
  isAddress := is_address;
  mnemonicToAccount := derive;
  formatEther := format_ether;
  parseEther := parse_ether;
  parseFloat := parse_float;
  gt := greater;
  getBalance := fun address served => (balance_of b address, S served);
  getGasPrice := fun served => (gas_price b, S served);
  sendTransaction := fun _ _ _ served => (submit_reply b, S served);
  waitForTransactionReceipt := fun _ served => (receipt_reply b, S served)
|}.

Definition healthy : behaviour := {|
  balance_of := fun _ => Ok (2 * ether);
  gas_price := Ok (10 ^ 9);
  submit_reply := Ok "0xhash";
  receipt_reply := Ok (Receipt.mk 7)
|}.

Definition timing_out : behaviour := {|
  balance_of := fun _ => Ok (2 * ether);
  gas_price := Ok (10 ^ 9);
  submit_reply := Ok "0xhash";
  receipt_reply := Err (ClientError Timeout)
|}.

(** Account 0 holds 1000 wei, the query for account 1 fails, account 2
    holds 3 ether, everything else is empty. *)
Definition patchy : behaviour := {|
  balance_of := fun address =>
    if bool_decide (address = "0xacc0") then Ok 1000
    else if bool_decide (address = "0xacc1") then Err (ClientError NetworkError)
    else if bool_decide (address = "0xacc2") then Ok (3 * ether)
    else Ok 0;
  gas_price := Ok (10 ^ 9);
  submit_reply := Ok "0xhash";
  receipt_reply := Ok (Receipt.mk 7)
|}.

Definition wallet : SimpleWallet := {| seedPhrases := 0%nat |}.

(** A wallet configured with [phrases], nothing served yet. *)
Definition configured (phrases : list string) : store nat :=
  Store {[ 0%nat := phrases ]} 0%nat.
End Stub.

Definition signer0 : Account.t := Account.mk "0xacc0" (Some [Byte.xac; Byte.x09]).
Definition signer1 : Account.t := Account.mk "0xacc1" (Some [Byte.xac; Byte.x09]).

(** One ether out of two, fee rate one gwei. *)
Definition one_of_two : checked nat :=
  Checked signer0 (2 * Stub.ether) 1%nat (10 ^ 9) 2%nat Stub.ether.

(** * Further definitions

    The rest of the two source files: what the remaining properties are
    stated with. *)

Definition is_console_log (ev : event) : bool :=
  match ev with ConsoleLog _ => true | _ => false end.

(** ** Characters *)

(** A string is a sequence of code units below 256; [is_white_space] holds
    of those that [String.prototype.trim] strips (tab, line feed, vertical
    tab, form feed, carriage return, space, no-break space). *)
Definition is_white_space (c : Ascii.ascii) : bool :=
  let n := nat_of_ascii c in
  (n =? 9)%nat || (n =? 10)%nat || (n =? 11)%nat || (n =? 12)%nat || (n =? 13)%nat
  || (n =? 32)%nat || (n =? 160)%nat.

Definition is_hex_char (c : Ascii.ascii) : bool :=
  let n := nat_of_ascii c in
  ((48 <=? n)%nat && (n <=? 57)%nat) || ((97 <=? n)%nat && (n <=? 102)%nat).

(** [s.includes(c)] for one character. *)
Fixpoint has_char (c : Ascii.ascii) (s : string) : bool :=
  match s with
  | EmptyString => false
  | String c' s' => Ascii.eqb c' c || has_char c s'
  end.

Fixpoint chars (s : string) : list Ascii.ascii :=
  match s with
  | EmptyString => []
  | String c s' => c :: chars s'
  end.

(** [s.trimStart()], [s.trimEnd()] and [s.trim()]. *)
Fixpoint trimStart (s : string) : string :=
  match s with
  | EmptyString => EmptyString
  | String c s' => if is_white_space c then trimStart s' else s
  end.

Fixpoint trimEnd (s : string) : string :=
  match s with
  | EmptyString => EmptyString
  | String c s' =>
      match trimEnd s' with
      | EmptyString => if is_white_space c then EmptyString else String c EmptyString
      | t => String c t
      end
  end.

Definition trim (s : string) : string := trimEnd (trimStart s).

(** [s.split(/[...]/)] for a character class: like [split], with a set of
    separators. *)
Fixpoint split_class (is_sep : Ascii.ascii -> bool) (s : string) : list string :=
  match s with
  | EmptyString => [EmptyString]
  | String c s' =>
      if is_sep c then EmptyString :: split_class is_sep s'
      else match split_class is_sep s' with
           | [] => [String c EmptyString]
           | w :: ws => String c w :: ws
           end
  end.

(** The class [[;\n]]. *)
Definition semicolon_or_newline (c : Ascii.ascii) : bool :=
  Ascii.eqb c ";"%char || Ascii.eqb c (ascii_of_nat 10).

(** A string used as a condition: [undefined] and the empty string are
    falsy. *)
Definition truthy (v : option string) : bool :=
  match v with
  | Some (String _ _) => true
  | _ => false
  end.

(** ** The constructor

    [process.env] is a finite map from names to strings.  The constructor
    either throws an [Error] (left, with its message) or sets the fields
    [rpcUrl] and [seedPhrases] (right); [publicClient] is built from
    [rpcUrl] without a call. *)

(** The [while (true)] loop over [PHRASES_0], [PHRASES_1], ...; [None] is
    a loop still running when the fuel is used up. *)
Definition phraseKey (index : nat) : string := "PHRASES_" +:+ pretty index.

Fixpoint read_numbered_phrases (fuel : nat) (env : gmap string string) (index : nat)
    : option (list string) :=
  match fuel with
  | O => None
  | S fuel' =>
      let phrase := env !! phraseKey index in
      if negb (truthy phrase) || (String.length (trim (default "" phrase)) =? 0)%nat
      then Some []
      else cons (trim (default "" phrase)) <$> read_numbered_phrases fuel' env (S index)
  end.

Arguments read_numbered_phrases : simpl never.

(** What the loop pushes at [index], unless it breaks there. *)
Definition numbered_phrase (env : gmap string string) (index : nat) : option string :=
  let phrase := env !! phraseKey index in
  if negb (truthy phrase) || (String.length (trim (default "" phrase)) =? 0)%nat
  then None
  else Some (trim (default "" phrase)).

(** [phrases.split(/[;\n]/).map((p) => p.trim()).filter((p) => p.length > 0)] *)
Definition split_phrases (phrases : string) : list string :=
  filter (fun p => (0 <? String.length p)%nat)
    (trim <$> split_class semicolon_or_newline phrases).

Definition rpc_url_not_set : string := "RPC_URL is not set in .env file".
Definition no_valid_seed_phrases : string :=
  "No valid seed phrases found. Please set PHRASES_0, PHRASES_1, etc. in .env file".
Definition phrases_not_set : string := "PHRASES is not set in .env file".
Definition no_valid_seed_phrases_in_phrases : string :=
  "No valid seed phrases found in PHRASES".

(** The constructor of the later version.  The loop gets one unit of fuel
    more than there are variables in the environment. *)
Definition new_SimpleWallet (env : gmap string string)
    : option (string + string * list string) :=
  let rpcUrl := env !! "RPC_URL" in
  if negb (truthy rpcUrl) then Some (inl rpc_url_not_set) else
  numbered ← read_numbered_phrases (S (size env)) env 0;
  let seedPhrases :=
    if (length numbered =? 0)%nat then
      let phrases := env !! "PHRASES" in
      if truthy phrases then split_phrases (default "" phrases) else numbered
    else numbered in
  if (length seedPhrases =? 0)%nat then Some (inl no_valid_seed_phrases)
  else Some (inr (default "" rpcUrl, seedPhrases)).

(** The constructor of the earlier version: [PHRASES] only. *)
Definition new_SimpleWallet_legacy (env : gmap string string)
    : string + string * list string :=
  let rpcUrl := env !! "RPC_URL" in
  if negb (truthy rpcUrl) then inl rpc_url_not_set else
  let phrases := env !! "PHRASES" in
  if negb (truthy phrases) then inl phrases_not_set else
  let seedPhrases := split_phrases (default "" phrases) in
  if (length seedPhrases =? 0)%nat then inl no_valid_seed_phrases_in_phrases
  else inr (default "" rpcUrl, seedPhrases).

(** ** Command-line mode

    What [main] does with its arguments once the wallet is constructed: the
    first method of the wallet it calls, and with what.  [parseInt] belongs
    to the runtime; it answers an integer or [NaN] ([None]).  The phrases
    are those [getSeedPhrases] returns. *)

Inductive invocation :=
  | Interactive
  | ListWallets
  | CheckBalance (address : string)
  | Transfer (seedPhrase : string) (walletIndex : option Z) (toAddress amount : string)
  | GetAddress (seedPhrase : string) (walletIdx : option Z)
  | GetPrivateKey (seedPhrase : string) (walletKeyIdx : option Z)
  | Usage (line : string)
  | NoSeedPhraseFound
  | Help.

(** [v || fallback] on strings. *)
Definition or_else (v : option string) (fallback : string) : string :=
  if truthy v then default "" v else fallback.

(** [a[n]] for a number [n] that is an integer or [NaN]. *)
Definition at_number (a : list string) (n : option Z) : option string :=
  match n with
  | Some z => if (0 <=? z)%Z then a !! Z.to_nat z else None
  | None => None
  end.

Definition balance_usage : string := "Usage: pnpm start balance <address>".
Definition transfer_usage : string :=
  "Usage: pnpm start transfer [phraseIndex] <walletIndex> <toAddress> <amountEth>".

Definition main_dispatch (parseInt : string -> option Z)
    (seedPhrases : list string) (args : list string) : invocation :=
  let command := args !! 0%nat in
  if negb (truthy command) then Interactive else
  let command := default "" command in
  if String.eqb command "list" then ListWallets
  else if String.eqb command "balance" then
    let address := args !! 1%nat in
    if negb (truthy address) then Usage balance_usage
    else CheckBalance (default "" address)
  else if String.eqb command "transfer" then
    match seedPhrases with
    | [] => NoSeedPhraseFound
    | first :: _ =>
        let '(phraseIndex, walletIndex, toAddress, amount) :=
          if (4 <=? length args)%nat then
            (parseInt (or_else (args !! 1%nat) "0"),
             parseInt (or_else (args !! 2%nat) "0"),
             args !! 3%nat, args !! 4%nat)
          else
            (Some 0, parseInt (or_else (args !! 1%nat) "0"),
             args !! 2%nat, args !! 3%nat) in
        if negb (truthy toAddress) || negb (truthy amount) then Usage transfer_usage
        else
          let seedPhrase := or_else (at_number seedPhrases phraseIndex) first in
          Transfer seedPhrase walletIndex (default "" toAddress) (default "" amount)
    end
  else if String.eqb command "address" then
    match seedPhrases with
    | [] => NoSeedPhraseFound
    | first :: _ =>
        let phraseIdx := parseInt (or_else (args !! 1%nat) "0") in
        let walletIdx := parseInt (or_else (args !! 2%nat) "0") in
        let seedForAddr := or_else (at_number seedPhrases phraseIdx) first in
        GetAddress seedForAddr walletIdx
    end
  else if String.eqb command "privatekey" || String.eqb command "key" then
    match seedPhrases with
    | [] => NoSeedPhraseFound
    | first :: _ =>
        let phraseKeyIdx := parseInt (or_else (args !! 1%nat) "0") in
        let walletKeyIdx := parseInt (or_else (args !! 2%nat) "0") in
        let seedForKey := or_else (at_number seedPhrases phraseKeyIdx) first in
        GetPrivateKey seedForKey walletKeyIdx
    end
  else Help.

(** [main] of the earlier version, for the [transfer] command: the first
    segment of [PHRASES], trimmed, signs. *)
Definition transfer_usage_legacy : string :=
  "Usage: pnpm start transfer <walletIndex> <toAddress> <amountEth>".

Definition main_dispatch_legacy_transfer (parseInt : string -> option Z)
    (env : gmap string string) (args : list string) : invocation :=
  let seedPhrase :=
    match env !! "PHRASES" with
    | Some phrases => trim <$> split_class semicolon_or_newline phrases !! 0%nat
    | None => None
    end in
  if negb (truthy seedPhrase) then NoSeedPhraseFound else
  let walletIndex := parseInt (or_else (args !! 1%nat) "0") in
  let toAddress := args !! 2%nat in
  let amount := args !! 3%nat in
  if negb (truthy toAddress) || negb (truthy amount) then Usage transfer_usage_legacy
  else Transfer (default "" seedPhrase) walletIndex (default "" toAddress) (default "" amount).

(** ** Interactive mode: the transfer dialogue

    What [handleTransfer] does with the lines typed at its prompts, read in
    order: the call of [wallet.transfer] it makes, the complaint it prints
    instead, or a prompt still waiting for a line. *)

Inductive dialogue :=
  | CallsTransfer (seedPhrase : string) (walletIndex : Z) (toAddress amount : string)
  | SaysNoSeedPhrase
  | SaysRecipientEmpty
  | SaysAmountEmpty
  | Waits.

(** The phrase chosen at the prompt [Select seed phrase (1-n, default 1)]. *)
Definition selected_phrase (parseInt : string -> option Z)
    (seedPhrases : list string) (first : string) (seedIndex : string) : string :=
  match parseInt seedIndex with
  | Some n =>
      let idx := n - 1 in
      if (0 <=? idx)%Z && (idx <? Z.of_nat (length seedPhrases))%Z
      then default first (seedPhrases !! Z.to_nat idx)
      else first
  | None => first
  end.

Definition handleTransfer_dialogue (parseInt : string -> option Z)
    (seedPhrases : list string) (answers : list string) : dialogue :=
  match seedPhrases with
  | [] => SaysNoSeedPhrase
  | first :: _ =>
      let chosen :=
        if (1 <? length seedPhrases)%nat then
          match answers with
          | [] => None
          | seedIndex :: answers' =>
              Some (selected_phrase parseInt seedPhrases first seedIndex, answers')
          end
        else Some (first, answers) in
      match chosen with
      | None => Waits
      | Some (seedPhrase, []) => Waits
      | Some (seedPhrase, walletIndexStr :: answers') =>
          let walletIndex := default 0 (parseInt walletIndexStr) in
          match answers' with
          | [] => Waits
          | toAddress :: answers'' =>
              if (String.length (trim toAddress) =? 0)%nat then SaysRecipientEmpty else
              match answers'' with
              | [] => Waits
              | amount :: _ =>
                  if (String.length (trim amount) =? 0)%nat then SaysAmountEmpty
                  else CallsTransfer seedPhrase walletIndex (trim toAddress) (trim amount)
              end
          end
      end
  end.

(** ** More test doubles *)

(** The node refuses every transaction. *)
Definition rejecting : Stub.behaviour := {|
  Stub.balance_of := fun _ => Ok (2 * Stub.ether);
  Stub.gas_price := Ok (10 ^ 9);
  Stub.submit_reply := Err (ClientError RejectedTransaction);
  Stub.receipt_reply := Ok (Receipt.mk 7)
|}.

(** No read gets through. *)
Definition offline : Stub.behaviour := {|
  Stub.balance_of := fun _ => Err (ClientError NetworkError);
  Stub.gas_price := Err (ClientError NetworkError);
  Stub.submit_reply := Err (ClientError NetworkError);
  Stub.receipt_reply := Err (ClientError NetworkError)
|}.

(** Every account is empty. *)
Definition penniless : Stub.behaviour := {|
  Stub.balance_of := fun _ => Ok 0;
  Stub.gas_price := Ok (10 ^ 9);
  Stub.submit_reply := Ok "0xhash";
  Stub.receipt_reply := Ok (Receipt.mk 7)
|}.

(** [parseInt] on the strings the examples use. *)
Definition parse_int (s : string) : option Z :=
  if bool_decide (s = "0") then Some 0
  else if bool_decide (s = "1") then Some 1
  else if bool_decide (s = "2") then Some 2
  else None.

Definition dotenv_numbered : gmap string string :=
  <["RPC_URL" := "http://node"]>
    (<["PHRASES_0" := " first phrase "]>
       (<["PHRASES_2" := "third phrase"]>
          (<["PHRASES" := "legacy one;legacy two"]> ∅))).

Definition dotenv_legacy : gmap string string :=
  <["RPC_URL" := "http://node"]> (<["PHRASES" := "legacy one;legacy two"]> ∅).

Definition twelve_words : list string :=
  ["test"; "test"; "test"; "test"; "test"; "test";
   "test"; "test"; "test"; "test"; "test"; "junk"].

(** * Proofs *)

Ltac unfold_run :=
  unfold transfer, checkBalance, getWalletAddress, getPrivateKey, getAccountFromSeed,
    parseEther_or_throw, publicClient_getBalance, publicClient_getGasPrice,
    walletClient_sendTransaction, publicClient_waitForTransactionReceipt,
    console_log, console_error, try_catch, bind, prepend, emit, ret, throw; simpl.

(** Case analysis on every answer a run asks a collaborator for. *)
Ltac split_run :=
  repeat match goal with
    | |- context [ negb ?b ] => destruct b eqn:?; simpl
    | |- context [ match mnemonicToAccount ?e ?p ?i with _ => _ end ] =>
        destruct (mnemonicToAccount e p i) eqn:?; simpl
    | |- context [ match parseEther ?e ?a with _ => _ end ] =>
        destruct (parseEther e a) eqn:?; simpl
    | |- context [ getBalance ?e ?a ?w ] =>
        destruct (getBalance e a w) as [[?|?] ?] eqn:?; simpl
    | |- context [ getGasPrice ?e ?w ] =>
        destruct (getGasPrice e w) as [[?|?] ?] eqn:?; simpl
    | |- context [ sendTransaction ?e ?a ?t ?v ?w ] =>
        destruct (sendTransaction e a t v w) as [[?|?] ?] eqn:?; simpl
    | |- context [ waitForTransactionReceipt ?e ?h ?w ] =>
        destruct (waitForTransactionReceipt e h w) as [[?|?] ?] eqn:?; simpl
    | |- context [ if gt ?e ?x ?y then _ else _ ] => destruct (gt e x y) eqn:?; simpl
    | |- context [ (?x >? ?y)%Z ] => destruct (Z.gtb_spec x y); simpl
    | |- context [ (?x <? ?y)%Z ] => destruct (Z.ltb_spec x y); simpl
    end.

(** Two answers to the same question are the same answer. *)
Ltac same_answers :=
  simplify_eq;
  repeat (match goal with
          | H1 : ?x = _, H2 : ?x = _ |- _ => rewrite H1 in H2
          end; simplify_eq).

(** ** Examples *)

Example trim_example : trim "  test junk  " = "test junk".
Proof. reflexivity. Qed.

Example split_phrases_example :
  split_phrases " one two ; three four;;  " = ["one two"; "three four"].
Proof. reflexivity. Qed.

Example new_SimpleWallet_numbered_example :
  new_SimpleWallet
    (<["RPC_URL" := "http://node"]>
       (<["PHRASES_0" := " first phrase "]>
          (<["PHRASES_2" := "third phrase"]>
             (<["PHRASES" := "legacy one;legacy two"]> ∅))))
  = Some (inr ("http://node", ["first phrase"])).
Proof. vm_compute. reflexivity. Qed.

Example new_SimpleWallet_fallback_example :
  new_SimpleWallet
    (<["RPC_URL" := "http://node"]> (<["PHRASES" := "legacy one;legacy two"]> ∅))
  = Some (inr ("http://node", ["legacy one"; "legacy two"])).
Proof. vm_compute. reflexivity. Qed.

Example preview_12_words :
  preview "test test test test test test test test test test test junk" = "test test test...".
Proof. reflexivity. Qed.
Example split_keeps_empty : split " "%char "a  b" = ["a"; ""; "b"].
Proof. reflexivity. Qed.
Example hex_example : toString_hex [Byte.x00; Byte.xff; Byte.x1a] = "00ff1a".
Proof. reflexivity. Qed.

Example stub_transfer_confirmed :
  transfer (Stub.env Stub.healthy) Stub.junk 0 Stub.recipient "1" (Stub.configured [Stub.junk])
  = Outcome (Ok "0xhash") (Store {[ 0%nat := [Stub.junk] ]} 4%nat)
      [ MnemonicToAccount Stub.junk 0 true;
        GetBalance "0xacc0" (Ok (2 * Stub.ether));
        GetGasPrice (Ok (10 ^ 9));
        SendTransaction "0xacc0" Stub.recipient Stub.ether (Ok "0xhash");
        ConsoleLog "Transaction sent: 0xhash";
        ConsoleLog "Waiting for confirmation...";
        WaitForTransactionReceipt "0xhash" (Ok (Receipt.mk 7));
        ConsoleLog "Transaction confirmed in block: 7" ].
Proof. vm_compute. reflexivity. Qed.

Example stub_scan_patchy :
  let o := listWalletsWithBalance (Stub.env Stub.patchy) Stub.wallet (Some 3%nat)
             (Stub.configured [Stub.junk]) in
  result o =
    Ok [ WalletInfo.mk "0xacc0" "1000" "0.000000000000001" 0 "test test test...";
         WalletInfo.mk "0xacc2" "3000000000000000000" "3" 2 "test test test..." ]
  /\ emitted o =
    [ MnemonicToAccount Stub.junk 0 true; GetBalance "0xacc0" (Ok 1000);
      MnemonicToAccount Stub.junk 1 true;
      GetBalance "0xacc1" (Err (ClientError NetworkError));
      ConsoleError "Error checking wallet index 1:" (ClientError NetworkError);
      MnemonicToAccount Stub.junk 2 true; GetBalance "0xacc2" (Ok (3 * Stub.ether)) ].
Proof. vm_compute. split; reflexivity. Qed.

(** ** Transfer *)

Section Transfer.
Context {W F : Type}.
Variable env : Collaborators W F.
Variables (seedPhrase : string) (walletIndex : Z) (toAddress amountEth : string).
Variable s : store W.

Local Abbreviation checks_pass :=
  (passes_checks env seedPhrase walletIndex toAddress amountEth s).
Local Abbreviation calls_before := (before_submit seedPhrase walletIndex).
Local Abbreviation submission := (submit toAddress).

Local Abbreviation run := (transfer env seedPhrase walletIndex toAddress amountEth s).

Lemma transfer_submits_iff :
  (submits (emitted run) = 0%nat ∨ submits (emitted run) = 1%nat) ∧
  (submits (emitted run) = 1%nat ↔ ∃ c, checks_pass c).
Proof.
  unfold passes_checks. unfold_run. split_run.
  all: unfold submits; simpl; split; [ auto | ].
  all: split; [ intros; try discriminate | intros ([] & ? & ? & ? & ? & ? & ? & ?) ].
  all: simpl in *; try (same_answers; lia).
  all: same_answers; try discriminate.
  all: eexists (Checked _ _ _ _ _ _); simpl; eauto 10.
Qed.

(** The remote node refuses the transaction. *)
Lemma transfer_rejected c e w3 :
  checks_pass c →
  sendTransaction env (signer c) toAddress (value c) (after_fee c) = (Err e, w3) →
  run = Outcome (Err e) (Store (heap s) w3) (calls_before c ++ [submission c (Err e)]).
Proof.
  intros (? & ? & ? & ? & ? & ? & ?) ?. unfold before_submit, submit.
  unfold_run. split_run; same_answers; try lia; reflexivity.
Qed.

(** The transaction is accepted and the wait for its receipt fails. *)
Lemma transfer_unconfirmed c hash w3 e w4 :
  checks_pass c →
  sendTransaction env (signer c) toAddress (value c) (after_fee c) = (Ok hash, w3) →
  waitForTransactionReceipt env hash w3 = (Err e, w4) →
  run = Outcome (Err e) (Store (heap s) w4)
          (calls_before c ++
           [ submission c (Ok hash);
             ConsoleLog ("Transaction sent: " +:+ hash);
             ConsoleLog "Waiting for confirmation...";
             WaitForTransactionReceipt hash (Err e) ]).
Proof.
  intros (? & ? & ? & ? & ? & ? & ?) ? ?. unfold before_submit, submit.
  unfold_run. split_run; same_answers; try lia; reflexivity.
Qed.

(** The transaction is accepted and confirmed. *)
Lemma transfer_confirmed c hash w3 receipt w4 :
  checks_pass c →
  sendTransaction env (signer c) toAddress (value c) (after_fee c) = (Ok hash, w3) →
  waitForTransactionReceipt env hash w3 = (Ok receipt, w4) →
  run = Outcome (Ok hash) (Store (heap s) w4)
          (calls_before c ++
           [ submission c (Ok hash);
             ConsoleLog ("Transaction sent: " +:+ hash);
             ConsoleLog "Waiting for confirmation...";
             WaitForTransactionReceipt hash (Ok receipt);
             ConsoleLog ("Transaction confirmed in block: "
                         +:+ pretty (Receipt.blockNumber receipt)) ]).
Proof.
  intros (? & ? & ? & ? & ? & ? & ?) ? ?. unfold before_submit, submit.
  unfold_run. split_run; same_answers; try lia; reflexivity.
Qed.

(** A run that does not pass every check fails. *)
Lemma transfer_unchecked_fails :
  (¬ ∃ c, checks_pass c) → ∃ e, result run = Err e.
Proof.
  intros Hno. unfold passes_checks in Hno. revert Hno. unfold_run. split_run.
  all: intros Hno; eauto.
  all: exfalso; apply Hno; by eexists (Checked _ _ _ _ _ _); simpl; eauto 10.
Qed.

(** C1: one call of [transfer] submits at most once.  Whenever a step
    before the submission fails (recipient check, derivation, balance
    fetch, amount-only check, fee fetch, amount parsing, total-cost
    check) nothing is submitted and the call fails; when all of them pass
    there is exactly one [sendTransaction], whatever it answers and
    whatever the wait for the receipt does afterwards. *)
Theorem transfer_submits_at_most_once :
  (submits (emitted run) <= 1)%nat ∧
  ((¬ ∃ c, checks_pass c) →
     submits (emitted run) = 0%nat ∧ ∃ e, result run = Err e) ∧
  (∀ c, checks_pass c → ∃ r, filter is_submit (emitted run) = [submission c r]).
Proof.
  destruct transfer_submits_iff as [Hle Hiff]. split; [ lia | ]. split.
  - intros Hno. split; [ | by apply transfer_unchecked_fails ].
    destruct Hle as [ | H1 ]; [ done | ]. apply Hiff in H1. contradiction.
  - intros c Hc.
    destruct (sendTransaction env (signer c) toAddress (value c) (after_fee c))
      as [[hash | e] w3] eqn:Hsend.
    + destruct (waitForTransactionReceipt env hash w3) as [[receipt | e] w4] eqn:Hwait.
      * rewrite (transfer_confirmed c hash w3 receipt w4); eauto.
      * rewrite (transfer_unconfirmed c hash w3 e w4); eauto.
    + rewrite (transfer_rejected c e w3); eauto.
Qed.

(** C2: with a well-formed recipient, a derived signer, fetched balance
    [B], fee rate [p >= 0] and parsed amount [a], [transfer] fails with
    [InsufficientFunds] when [a > B], and also when [a <= B] but
    [a + 21000 * p > B]; it submits only when [a + 21000 * p <= B] (and
    does submit then, unless the amount-only comparison on JavaScript
    numbers fires). *)
Theorem transfer_affordability (account : Account.t) (B : Z) (w1 : W) (p : Z) (w2 : W) (a : Z) :
  isAddress env toAddress = true →
  mnemonicToAccount env seedPhrase walletIndex = Some account →
  getBalance env (Account.address account) (ledger s) = (Ok B, w1) →
  getGasPrice env w1 = (Ok p, w2) →
  parseEther env amountEth = Some a →
  0 <= p →
  (B < a → fails_with run InsufficientFunds ∧ submits (emitted run) = 0%nat) ∧
  (a <= B → B < a + 21000 * p →
     fails_with run InsufficientFunds ∧ submits (emitted run) = 0%nat) ∧
  (submits (emitted run) = 1%nat → a + 21000 * p <= B) ∧
  (a + 21000 * p <= B →
   gt env (parseFloat env amountEth) (parseFloat env (formatEther env B)) = false →
   submits (emitted run) = 1%nat).
Proof.
  intros Haddr Hacc Hbal Hfee Hamount Hp.
  unfold fails_with, submits. unfold_run. split_run; same_answers.
  all: repeat split; intros; simpl in *; try lia; try congruence; eauto.
Qed.

(** C3, as the code has it: an amount that [parseEther] rejects makes
    [transfer] fail without submitting anything, but the amount is not
    checked up front: when the recipient is well-formed and derivation,
    balance fetch, amount-only comparison and fee fetch pass, the failure
    is the parse error ([InvalidInput]), raised after those two remote
    reads. *)
Theorem transfer_unparsable_amount :
  parseEther env amountEth = None →
  (∃ e, result run = Err e) ∧
  submits (emitted run) = 0%nat ∧
  (∀ account B w1 p w2,
     isAddress env toAddress = true →
     mnemonicToAccount env seedPhrase walletIndex = Some account →
     getBalance env (Account.address account) (ledger s) = (Ok B, w1) →
     gt env (parseFloat env amountEth) (parseFloat env (formatEther env B)) = false →
     getGasPrice env w1 = (Ok p, w2) →
     result run = Err (InvalidDecimalNumberError amountEth) ∧
     fails_with run InvalidInput ∧
     ledger_calls (emitted run) =
       [ GetBalance (Account.address account) (Ok B); GetGasPrice (Ok p) ]).
Proof.
  intros Hamount. unfold fails_with, submits, ledger_calls.
  unfold_run. split_run; same_answers.
  all: repeat split; intros; same_answers; simpl; eauto.
Qed.

(** C4: a malformed recipient makes [transfer] fail with [InvalidInput]
    before anything else happens: no derivation, no ledger call, no
    change of the store. *)
Theorem transfer_invalid_recipient :
  isAddress env toAddress = false →
  run = Outcome (Err (InvalidRecipientAddress toAddress)) s [] ∧
  fails_with run InvalidInput ∧
  ledger_calls (emitted run) = [].
Proof.
  intros Haddr. unfold fails_with, ledger_calls. unfold_run. rewrite Haddr. simpl.
  repeat split; eauto.
Qed.

(** C9: when the wait for the receipt fails with a [Timeout], [transfer]
    fails with that very exception: it reports [Timeout], not
    [RejectedTransaction].  The run contains the one submission already
    made and ends with the failed wait: nothing is undone or sent again. *)
Theorem transfer_reports_timeout (c : checked W) (hash : string) (w3 : W) (e : exn) (w4 : W) :
  checks_pass c →
  sendTransaction env (signer c) toAddress (value c) (after_fee c) = (Ok hash, w3) →
  waitForTransactionReceipt env hash w3 = (Err e, w4) →
  kind_of e = Some Timeout →
  result run = Err e ∧
  fails_with run Timeout ∧
  ¬ fails_with run RejectedTransaction ∧
  filter is_submit (emitted run) = [submission c (Ok hash)] ∧
  ledger_calls (emitted run) =
    [ GetBalance (Account.address (signer c)) (Ok (balance c));
      GetGasPrice (Ok (gasPrice c));
      submission c (Ok hash);
      WaitForTransactionReceipt hash (Err e) ] ∧
  ledger (final run) = w4.
Proof.
  intros Hc Hsend Hwait Hkind.
  rewrite (transfer_unconfirmed c hash w3 e w4 Hc Hsend Hwait).
  unfold fails_with. simpl. repeat split; eauto.
  intros (e' & He' & Hk); simplify_eq; congruence.
Qed.

End Transfer.

(** ** Balance scan *)

Section Scan.
Context {W F : Type}.
Variable env : Collaborators W F.

Lemma prepend_nil {A} (o : outcome W A) : prepend [] o = o.
Proof. by destruct o. Qed.

Lemma prepend_app {A} t1 t2 (o : outcome W A) :
  prepend (t1 ++ t2) o = prepend t1 (prepend t2 o).
Proof. destruct o. simpl. by rewrite app_assoc. Qed.

Lemma result_prepend {A} t (o : outcome W A) : result (prepend t o) = result o.
Proof. by destruct o. Qed.

Lemma final_prepend {A} t (o : outcome W A) : final (prepend t o) = final o.
Proof. by destruct o. Qed.

Lemma emitted_prepend {A} t (o : outcome W A) : emitted (prepend t o) = t ++ emitted o.
Proof. by destruct o. Qed.

Lemma bind_ret_l {A B} (a : A) (f : A → M W B) s : bind (ret a) f s = f a s.
Proof. unfold bind, ret. apply prepend_nil. Qed.

Lemma bind_assoc {A B C} (m : M W A) (f : A → M W B) (g : B → M W C) s :
  bind (bind m f) g s = bind m (fun a => bind (f a) g) s.
Proof.
  unfold bind. destruct (m s) as [[a | e] s1 t1]; simpl; [ | done ].
  destruct (f a s1) as [[b | e] s2 t2]; simpl; [ | done ].
  apply prepend_app.
Qed.

Lemma bind_ext {A B} (m : M W A) (f g : A → M W B) s :
  (∀ a s', f a s' = g a s') → bind m f s = bind m g s.
Proof. intros Hfg. unfold bind. destruct (m s) as [[a | e] s1 t1]; [ by rewrite Hfg | done ]. Qed.

Lemma for_of_app {X A} (xs ys : list X) (body : A → X → M W A) acc s :
  for_of (xs ++ ys) body acc s = bind (for_of xs body acc) (for_of ys body) s.
Proof.
  revert acc s. induction xs as [ | x xs IH ]; intros acc s; simpl.
  - by rewrite bind_ret_l.
  - rewrite bind_assoc. apply bind_ext. intros; apply IH.
Qed.

Lemma for_of_map {X Y A} (f : X → Y) (xs : list X) (body : A → Y → M W A) acc s :
  for_of (f <$> xs) body acc s = for_of xs (fun acc x => body acc (f x)) acc s.
Proof.
  revert acc s. induction xs as [ | x xs IH ]; intros acc s; simpl; [ done | ].
  apply bind_ext. intros; apply IH.
Qed.

(** The nested loops visit the enumeration. *)
Lemma nested_loops_enumerate phrases maxIndex found s :
  for_of phrases
    (fun found seedPhrase => for_of (seq 0 maxIndex) (check_index env seedPhrase) found)
    found s
  = scan_pairs env (enumeration phrases maxIndex) found s.
Proof.
  unfold scan_pairs, enumeration.
  revert found s. induction phrases as [ | p phrases IH ]; intros found s; simpl; [ done | ].
  rewrite for_of_app. unfold bind. rewrite for_of_map.
  destruct (for_of (seq 0 maxIndex) _ found s) as [[found' | e] s' t]; [ | done ].
  by rewrite IH.
Qed.

Lemma listWalletsWithBalance_scan this maxIndex s :
  listWalletsWithBalance env this maxIndex s
  = scan_pairs env
      (enumeration (default [] (heap s !! seedPhrases this)) (default 20%nat maxIndex)) [] s.
Proof.
  unfold listWalletsWithBalance, load, bind.
  rewrite nested_loops_enumerate. apply prepend_nil.
Qed.

(** One iteration, case by case. *)
Lemma check_index_run seedPhrase found i s :
  check_index env seedPhrase found i s =
    match mnemonicToAccount env seedPhrase (Z.of_nat i) with
    | None =>
        Outcome (Ok found) s
          [ MnemonicToAccount seedPhrase (Z.of_nat i) false;
            ConsoleError (caught_line i) InvalidMnemonic ]
    | Some account =>
        match getBalance env (Account.address account) (ledger s) with
        | (Err e, w) =>
            Outcome (Ok found) (Store (heap s) w)
              [ MnemonicToAccount seedPhrase (Z.of_nat i) true;
                GetBalance (Account.address account) (Err e);
                ConsoleError (caught_line i) e ]
        | (Ok balance, w) =>
            Outcome
              (Ok (if (0 <? balance)%Z
                   then found ++ [entry env account seedPhrase i balance]
                   else found))
              (Store (heap s) w)
              [ MnemonicToAccount seedPhrase (Z.of_nat i) true;
                GetBalance (Account.address account) (Ok balance) ]
        end
    end.
Proof.
  unfold check_index, caught_line, entry. unfold_run. split_run; try reflexivity; lia.
Qed.

Lemma scan_pairs_cons seedPhrase i pairs found s :
  scan_pairs env ((seedPhrase, i) :: pairs) found s
  = bind (check_index env seedPhrase found i) (scan_pairs env pairs) s.
Proof. reflexivity. Qed.

(** Unfold the first iteration of a scan and split on what it met. *)
Ltac scan_step :=
  rewrite !scan_pairs_cons; unfold bind; rewrite !check_index_run;
  match goal with
  | |- context [ mnemonicToAccount env ?p ?i ] =>
      destruct (mnemonicToAccount env p i) as [ account | ] eqn:?; simpl;
      [ match goal with
        | |- context [ getBalance env ?a ?w ] =>
            destruct (getBalance env a w) as [[ balance | e ] w'] eqn:?; simpl
        end
      | ]
  end;
  rewrite ?result_prepend, ?final_prepend, ?emitted_prepend.

(** The scan never throws, and what it finds is appended to what was
    found before. *)
Lemma scan_pairs_found pairs found s :
  ∃ more,
    result (scan_pairs env pairs [] s) = Ok more ∧
    scan_pairs env pairs found s =
      Outcome (Ok (found ++ more))
        (final (scan_pairs env pairs [] s)) (emitted (scan_pairs env pairs [] s)).
Proof.
  revert found s. induction pairs as [ | [p i] pairs IH ]; intros found s.
  - exists []. by rewrite app_nil_r.
  - scan_step.
    + destruct (0 <? balance)%Z; simpl.
      * destruct (IH (found ++ [entry env account p i balance]) (Store (heap s) w'))
          as (more & Hmore & ->).
        destruct (IH [entry env account p i balance] (Store (heap s) w'))
          as (more' & Hmore' & ->).
        same_answers. simpl. eexists; split; [ done | ]. by rewrite <- app_assoc.
      * destruct (IH found (Store (heap s) w')) as (more & Hmore & ->). eauto.
    + destruct (IH found (Store (heap s) w')) as (more & Hmore & ->). eauto.
    + destruct (IH found s) as (more & Hmore & ->). eauto.
Qed.

Lemma scan_pairs_app pre post found s :
  scan_pairs env (pre ++ post) found s
  = bind (scan_pairs env pre found) (scan_pairs env post) s.
Proof. apply for_of_app. Qed.

(** One derivation per pair, in the order of the pairs. *)
Lemma scan_pairs_derivations pairs found s :
  derivations (emitted (scan_pairs env pairs found s))
  = (fun '(p, i) => (p, Z.of_nat i)) <$> pairs.
Proof.
  revert found s. induction pairs as [ | [p i] pairs IH ]; intros found s; [ done | ].
  scan_step; unfold derivations in *; simpl; by rewrite IH.
Qed.


Lemma is_entry_weaken t t' x info :
  is_entry env t x info → (∀ ev, ev ∈ t → ev ∈ t') → is_entry env t' x info.
Proof. intros [k p i b account Hpos Hacc Hin] Hsub. constructor; auto. Qed.

(** What a scan selects: an order-preserving choice of positions of the
    enumeration, one entry for each; and, when nothing is raised, exactly
    the positions whose fetched balance is positive. *)
Lemma scan_pairs_selection pairs k0 found s :
  ∃ sel infos,
    result (scan_pairs env pairs found s) = Ok (found ++ infos) ∧
    sublist sel.*1 (indexed k0 pairs) ∧
    Forall2 (is_entry env (emitted (scan_pairs env pairs found s))) sel infos ∧
    (raised (emitted (scan_pairs env pairs found s)) = [] →
     ∃ bs, balance_replies (emitted (scan_pairs env pairs found s)) = Ok <$> bs ∧
           length bs = length pairs ∧
           sel = filter (fun x => 0 < x.2) (zip (indexed k0 pairs) bs)).
Proof.
  revert k0 found s. induction pairs as [ | [p i] pairs IH ]; intros k0 found s.
  - exists [], []. simpl. rewrite app_nil_r. repeat split; try constructor.
    intros _. by exists [].
  - scan_step.
    + destruct (Z.ltb_spec 0 balance) as [Hpos | Hpos].
      * destruct (IH (S k0) (found ++ [entry env account p i balance]) (Store (heap s) w'))
          as (sel & infos & -> & Hsub & Hent & Hall).
        exists ((k0, (p, i), balance) :: sel), (entry env account p i balance :: infos).
        simpl. rewrite <- app_assoc. split; [ done | ]. split; [ by constructor | ]. split.
        -- constructor.
           ++ constructor; [ done | done | set_solver ].
           ++ eapply Forall2_impl; [ exact Hent | ].
              intros x info Hx. eapply is_entry_weaken; [ exact Hx | ]. set_solver.
        -- unfold raised, balance_replies in *. simpl. intros Hnone.
           destruct (Hall Hnone) as (bs & Hbs & Hlen & ->).
           exists (balance :: bs). rewrite Hbs. simpl. split; [ done | ].
           split; [ by rewrite Hlen | ]. by rewrite filter_cons_True.
      * destruct (IH (S k0) found (Store (heap s) w'))
          as (sel & infos & -> & Hsub & Hent & Hall).
        exists sel, infos. simpl. split; [ done | ]. split; [ by constructor | ]. split.
        -- eapply Forall2_impl; [ exact Hent | ].
           intros x info Hx. eapply is_entry_weaken; [ exact Hx | ]. set_solver.
        -- unfold raised, balance_replies in *. simpl. intros Hnone.
           destruct (Hall Hnone) as (bs & Hbs & Hlen & ->).
           exists (balance :: bs). rewrite Hbs. simpl. split; [ done | ].
           split; [ by rewrite Hlen | ]. rewrite filter_cons_False; [ done | simpl; lia ].
    + destruct (IH (S k0) found (Store (heap s) w'))
        as (sel & infos & -> & Hsub & Hent & Hall).
      exists sel, infos. simpl. split; [ done | ]. split; [ by constructor | ]. split.
      * eapply Forall2_impl; [ exact Hent | ].
        intros x info Hx. eapply is_entry_weaken; [ exact Hx | ]. set_solver.
      * unfold raised. simpl. discriminate.
    + destruct (IH (S k0) found s) as (sel & infos & -> & Hsub & Hent & Hall).
      exists sel, infos. simpl. split; [ done | ]. split; [ by constructor | ]. split.
      * eapply Forall2_impl; [ exact Hent | ].
        intros x info Hx. eapply is_entry_weaken; [ exact Hx | ]. set_solver.
      * unfold raised. simpl. discriminate.
Qed.

(** The replies of a run whose first iteration is known. *)
Lemma queried_answered p i ok address r t :
  queried ([MnemonicToAccount p i ok; GetBalance address r] ++ t) = Some r :: queried t.
Proof. reflexivity. Qed.

Lemma queried_refused p i ok address r line e t :
  queried ([MnemonicToAccount p i ok; GetBalance address r; ConsoleError line e] ++ t)
  = Some r :: queried t.
Proof. reflexivity. Qed.

Lemma queried_underived p i ok line e t :
  queried ([MnemonicToAccount p i ok; ConsoleError line e] ++ t) = None :: queried t.
Proof. reflexivity. Qed.

Lemma positive_positions_cons k0 x pairs q t t' :
  queried t = q :: queried t' →
  positive_positions k0 (x :: pairs) t
  = (if answered_positive q then [(k0, x, q)] else []) ++ positive_positions (S k0) pairs t'.
Proof.
  unfold positive_positions, indexed. intros ->. simpl.
  destruct (answered_positive q) eqn:Hq.
  - rewrite filter_cons_True; [ done | ]. simpl. by rewrite Hq.
  - rewrite filter_cons_False; [ done | ]. simpl. rewrite Hq. tauto.
Qed.

(** What a scan reports, read off its calls: one reply, or none, for each
    pair, and an entry for exactly the positions whose balance query
    answered a balance above zero.  A pair that was not derived, or whose
    query failed, or whose balance is zero, adds nothing. *)
Lemma scan_pairs_reported pairs k0 found s :
  ∃ sel infos,
    result (scan_pairs env pairs found s) = Ok (found ++ infos) ∧
    sublist sel.*1 (indexed k0 pairs) ∧
    Forall2 (is_entry env (emitted (scan_pairs env pairs found s))) sel infos ∧
    length (queried (emitted (scan_pairs env pairs found s))) = length pairs ∧
    with_reply <$> sel
      = positive_positions k0 pairs (emitted (scan_pairs env pairs found s)).
Proof.
  revert k0 found s. induction pairs as [ | [p i] pairs IH ]; intros k0 found s.
  - exists [], []. simpl. rewrite app_nil_r. repeat split; constructor.
  - scan_step.
    + erewrite positive_positions_cons by apply queried_answered.
      rewrite queried_answered. cbn [answered_positive].
      destruct (Z.ltb_spec 0 balance) as [Hpos | Hpos].
      * destruct (IH (S k0) (found ++ [entry env account p i balance]) (Store (heap s) w'))
          as (sel & infos & -> & Hsub & Hent & Hlen & Hsel).
        exists ((k0, (p, i), balance) :: sel), (entry env account p i balance :: infos).
        simpl. rewrite <- app_assoc. split; [ done | ]. split; [ by constructor | ].
        split; [ | by rewrite Hlen, <- Hsel ].
        constructor.
        -- constructor; [ done | done | set_solver ].
        -- eapply Forall2_impl; [ exact Hent | ].
           intros x info Hx. eapply is_entry_weaken; [ exact Hx | ]. set_solver.
      * destruct (IH (S k0) found (Store (heap s) w'))
          as (sel & infos & -> & Hsub & Hent & Hlen & Hsel).
        exists sel, infos. simpl. split; [ done | ]. split; [ by constructor | ].
        split; [ | by rewrite Hlen, <- Hsel ].
        eapply Forall2_impl; [ exact Hent | ].
        intros x info Hx. eapply is_entry_weaken; [ exact Hx | ]. set_solver.
    + erewrite positive_positions_cons by apply queried_refused.
      rewrite queried_refused. cbn [answered_positive].
      destruct (IH (S k0) found (Store (heap s) w'))
        as (sel & infos & -> & Hsub & Hent & Hlen & Hsel).
      exists sel, infos. simpl. split; [ done | ]. split; [ by constructor | ].
      split; [ | by rewrite Hlen, <- Hsel ].
      eapply Forall2_impl; [ exact Hent | ].
      intros x info Hx. eapply is_entry_weaken; [ exact Hx | ]. set_solver.
    + erewrite positive_positions_cons by apply queried_underived.
      rewrite queried_underived. cbn [answered_positive].
      destruct (IH (S k0) found s) as (sel & infos & -> & Hsub & Hent & Hlen & Hsel).
      exists sel, infos. simpl. split; [ done | ]. split; [ by constructor | ].
      split; [ | by rewrite Hlen, <- Hsel ].
      eapply Forall2_impl; [ exact Hent | ].
      intros x info Hx. eapply is_entry_weaken; [ exact Hx | ]. set_solver.
Qed.

(** A balance query follows each derivation that succeeded, and no other:
    the replies read off the run are the replies of its balance queries,
    in order, and a pair has no reply exactly when it was not derived. *)
Lemma scan_pairs_queried pairs found s :
  omap id (queried (emitted (scan_pairs env pairs found s)))
    = balance_replies (emitted (scan_pairs env pairs found s)) ∧
  Forall2 (fun x q => q = None ↔ mnemonicToAccount env x.1 (Z.of_nat x.2) = None)
    pairs (queried (emitted (scan_pairs env pairs found s))).
Proof.
  revert found s. induction pairs as [ | [p i] pairs IH ]; intros found s.
  - split; [ done | constructor ].
  - scan_step.
    + destruct (IH (if (0 <? balance)%Z
                    then found ++ [entry env account p i balance] else found)
                  (Store (heap s) w')) as [Hreplies Hnone].
      rewrite queried_answered. unfold balance_replies in *. simpl.
      split; [ first [ exact Hreplies | f_equal; exact Hreplies ] | ]. constructor; [ | done ]. simpl. split; congruence.
    + destruct (IH found (Store (heap s) w')) as [Hreplies Hnone].
      rewrite queried_refused. unfold balance_replies in *. simpl.
      split; [ first [ exact Hreplies | f_equal; exact Hreplies ] | ]. constructor; [ | done ]. simpl. split; congruence.
    + destruct (IH found s) as [Hreplies Hnone].
      rewrite queried_underived. unfold balance_replies in *. simpl.
      split; [ first [ exact Hreplies | f_equal; exact Hreplies ] | ]. constructor; [ | done ]. simpl. split; congruence.
Qed.

Lemma length_enumeration phrases maxIndex :
  length (enumeration phrases maxIndex) = (length phrases * maxIndex)%nat.
Proof.
  unfold enumeration. induction phrases as [ | p phrases IH ]; [ done | ].
  rewrite bind_cons, length_app, length_fmap, length_seq, IH. simpl. lia.
Qed.

Lemma NoDup_enumeration phrases maxIndex :
  NoDup phrases → NoDup (enumeration phrases maxIndex).
Proof.
  intros Hnd. unfold enumeration. apply NoDup_bind; [ | | done ].
  - intros p q x _ _ Hp Hq.
    apply list_elem_of_fmap in Hp as (i & -> & _).
    apply list_elem_of_fmap in Hq as (j & ? & _). by simplify_eq.
  - intros p _. apply NoDup_fmap_2; [ | apply NoDup_seq ]. by intros i j ?; simplify_eq.
Qed.

Lemma NoDup_indexed {A} k0 (l : list A) : NoDup (indexed k0 l).
Proof.
  apply (NoDup_fmap_1 fst). unfold indexed.
  rewrite fst_zip; [ apply NoDup_seq | by rewrite length_seq ].
Qed.

Lemma snd_indexed {A} k0 (l : list A) : (indexed k0 l).*2 = l.
Proof. unfold indexed. apply snd_zip. by rewrite length_seq. Qed.

Lemma length_indexed {A} k0 (l : list A) : length (indexed k0 l) = length l.
Proof. by rewrite <- (snd_indexed k0 l) at 2; rewrite length_fmap. Qed.

(** C5, as the code has it: the scan of [N] phrases with bound [M] derives
    exactly the [N * M] pairs of the enumeration, phrase by phrase and
    index by index, and queries the balance of each pair it could derive.
    It returns the entries of a subsequence of the enumeration, in that
    order, and reports no position of the enumeration twice, so at most
    [N * M] entries come back.  A pair is not reported twice when the
    phrases are pairwise distinct; a phrase that is configured twice is
    scanned twice.  Each entry belongs to a derived pair whose fetched
    balance is positive, and an entry appears for a position if and only
    if the balance query of that position was made and answered a balance
    above zero, whether or not a derivation or a query failed elsewhere:
    so also whenever all queries succeed. *)
Theorem scan_enumerates (this : SimpleWallet) (maxIndex : option nat)
    (s : store W) (phrases : list string) :
  heap s !! seedPhrases this = Some phrases →
  let pairs := enumeration phrases (default 20%nat maxIndex) in
  let o := listWalletsWithBalance env this maxIndex s in
  length pairs = (length phrases * default 20%nat maxIndex)%nat ∧
  derivations (emitted o) = (fun '(p, i) => (p, Z.of_nat i)) <$> pairs ∧
  omap id (queried (emitted o)) = balance_replies (emitted o) ∧
  Forall2 (fun x q => q = None ↔ mnemonicToAccount env x.1 (Z.of_nat x.2) = None)
    pairs (queried (emitted o)) ∧
  ∃ sel infos,
    result o = Ok infos ∧
    sublist sel.*1 (indexed 0 pairs) ∧
    NoDup sel.*1 ∧
    (NoDup phrases → NoDup sel.*1.*2) ∧
    Forall2 (is_entry env (emitted o)) sel infos ∧
    (length infos ≤ length phrases * default 20%nat maxIndex)%nat ∧
    with_reply <$> sel = positive_positions 0 pairs (emitted o).
Proof.
  intros Hphrases pairs o. subst o.
  rewrite listWalletsWithBalance_scan, Hphrases. simpl. fold pairs.
  split; [ apply length_enumeration | ].
  split; [ apply scan_pairs_derivations | ].
  split; [ apply scan_pairs_queried | ].
  split; [ apply scan_pairs_queried | ].
  destruct (scan_pairs_reported pairs 0 [] s)
    as (sel & infos & Hres & Hsub & Hent & Hlen & Hsel).
  exists sel, infos. split; [ done | ]. split; [ done | ].
  split; [ eapply sublist_NoDup; [ apply NoDup_indexed | exact Hsub ] | ].
  split.
  { intros Hnd. apply (sublist_NoDup _ (indexed 0 pairs).*2).
    - rewrite snd_indexed. by apply NoDup_enumeration.
    - apply (fmap_sublist snd). exact Hsub. }
  split; [ done | ]. split; [ | done ].
  pose proof (Forall2_length _ _ _ Hent) as Hlen'.
  pose proof (sublist_length _ _ Hsub) as Hle.
  rewrite length_fmap, length_indexed in Hle.
  unfold pairs in Hle. rewrite length_enumeration in Hle. lia.
Qed.

(** C6: when the balance query of one pair fails with [NetworkError],
    the scan does not throw.  It logs the failure, adds no entry for that
    pair, and goes on with the pairs that follow from the state the
    failed query left; what it returns is what the pairs before and the
    pairs after yield. *)
Theorem scan_skips_failed_query (this : SimpleWallet) (maxIndex : option nat)
    (s : store W) (phrases : list string)
    (pre post : list (string * nat)) (p : string) (i : nat)
    (account : Account.t) (e : exn) (w' : W) :
  heap s !! seedPhrases this = Some phrases →
  enumeration phrases (default 20%nat maxIndex) = pre ++ (p, i) :: post →
  let before := scan_pairs env pre [] s in
  mnemonicToAccount env p (Z.of_nat i) = Some account →
  getBalance env (Account.address account) (ledger (final before)) = (Err e, w') →
  kind_of e = Some NetworkError →
  let after := scan_pairs env post [] (Store (heap (final before)) w') in
  let o := listWalletsWithBalance env this maxIndex s in
  ∃ found_before found_after,
    result before = Ok found_before ∧
    result after = Ok found_after ∧
    result o = Ok (found_before ++ found_after) ∧
    emitted o =
      emitted before ++
      [ MnemonicToAccount p (Z.of_nat i) true;
        GetBalance (Account.address account) (Err e);
        ConsoleError (caught_line i) e ] ++
      emitted after ∧
    final o = final after.
Proof.
  intros Hphrases Hsplit. cbv zeta. intros Hacc Hbal Hkind.
  rewrite listWalletsWithBalance_scan, Hphrases. simpl.
  rewrite Hsplit, scan_pairs_app. unfold bind.
  destruct (scan_pairs_found pre [] s) as (found_before & Hbefore & _).
  destruct (scan_pairs env pre [] s) as [r1 s1 t1]. simpl in *. subst r1.
  rewrite scan_pairs_cons. unfold bind. rewrite check_index_run, Hacc, Hbal.
  destruct (scan_pairs_found post found_before (Store (heap s1) w'))
    as (found_after & Hafter & ->).
  exists found_before, found_after. simpl. by rewrite Hafter.
Qed.


End Scan.

(** ** The store and the seed-phrase list *)

Section Frame.
Context {W F : Type}.
Variable env : Collaborators W F.

(** The scan reads the heap only to fetch the seed phrases. *)
Lemma scan_pairs_frame pairs found h1 h2 w :
  result (scan_pairs env pairs found (Store h1 w))
    = result (scan_pairs env pairs found (Store h2 w)) ∧
  emitted (scan_pairs env pairs found (Store h1 w))
    = emitted (scan_pairs env pairs found (Store h2 w)) ∧
  ledger (final (scan_pairs env pairs found (Store h1 w)))
    = ledger (final (scan_pairs env pairs found (Store h2 w))).
Proof.
  revert found w. induction pairs as [ | [p i] pairs IH ]; intros found w; [ done | ].
  rewrite !scan_pairs_cons. unfold bind. rewrite !check_index_run. simpl.
  destruct (mnemonicToAccount env p (Z.of_nat i)) as [account | ].
  - destruct (getBalance env (Account.address account) w) as [[balance | e] w'].
    + rewrite !result_prepend, !emitted_prepend, !final_prepend.
      destruct (IH (if (0 <? balance)%Z
                    then found ++ [entry env account p i balance] else found) w')
        as (-> & -> & ->). done.
    + rewrite !result_prepend, !emitted_prepend, !final_prepend.
      destruct (IH found w') as (-> & -> & ->). done.
  - rewrite !result_prepend, !emitted_prepend, !final_prepend.
    destruct (IH found w) as (-> & -> & ->). done.
Qed.

Lemma listWalletsWithBalance_frame this maxIndex (s1 s2 : store W) :
  heap s1 !! seedPhrases this = heap s2 !! seedPhrases this →
  ledger s1 = ledger s2 →
  result (listWalletsWithBalance env this maxIndex s1)
    = result (listWalletsWithBalance env this maxIndex s2) ∧
  emitted (listWalletsWithBalance env this maxIndex s1)
    = emitted (listWalletsWithBalance env this maxIndex s2).
Proof.
  intros Hheap Hledger. rewrite !listWalletsWithBalance_scan, Hheap.
  destruct s1 as [h1 w1], s2 as [h2 w2]. simpl in *. subst w2.
  destruct (scan_pairs_frame
              (enumeration (default [] (h2 !! seedPhrases this)) (default 20%nat maxIndex))
              [] h1 h2 w1) as (? & ? & _).
  done.
Qed.

(** A transfer does not read the heap at all. *)
Lemma transfer_frame seedPhrase walletIndex toAddress amountEth (s1 s2 : store W) :
  ledger s1 = ledger s2 →
  result (transfer env seedPhrase walletIndex toAddress amountEth s1)
    = result (transfer env seedPhrase walletIndex toAddress amountEth s2) ∧
  emitted (transfer env seedPhrase walletIndex toAddress amountEth s1)
    = emitted (transfer env seedPhrase walletIndex toAddress amountEth s2).
Proof.
  destruct s1 as [h1 w1], s2 as [h2 w2]. simpl. intros ->.
  unfold_run. split_run; done.
Qed.

(** C10: [getSeedPhrases] hands out a new array holding the configured
    phrases.  Changing that array in place, in any way, leaves the
    wallet's own list as it was: a later scan and a later transfer run as
    they would have, and a later [getSeedPhrases] returns the configured
    phrases again. *)
Theorem getSeedPhrases_returns_copy (this : SimpleWallet) (s : store W)
    (phrases : list string) (f : list string → list string) :
  heap s !! seedPhrases this = Some phrases →
  ∃ copy,
    result (getSeedPhrases this s) = Ok copy ∧
    copy ≠ seedPhrases this ∧
    heap s !! copy = None ∧
    heap (final (getSeedPhrases this s)) !! copy = Some phrases ∧
    let s' := final (mutate copy f (final (getSeedPhrases this s))) in
    heap s' !! copy = Some (f phrases) ∧
    heap s' !! seedPhrases this = Some phrases ∧
    ledger s' = ledger s ∧
    (∀ maxIndex,
       result (listWalletsWithBalance env this maxIndex s')
         = result (listWalletsWithBalance env this maxIndex s) ∧
       emitted (listWalletsWithBalance env this maxIndex s')
         = emitted (listWalletsWithBalance env this maxIndex s)) ∧
    (∀ seedPhrase walletIndex toAddress amountEth,
       result (transfer env seedPhrase walletIndex toAddress amountEth s')
         = result (transfer env seedPhrase walletIndex toAddress amountEth s) ∧
       emitted (transfer env seedPhrase walletIndex toAddress amountEth s')
         = emitted (transfer env seedPhrase walletIndex toAddress amountEth s)) ∧
    ∃ copy',
      result (getSeedPhrases this s') = Ok copy' ∧
      heap (final (getSeedPhrases this s')) !! copy' = Some phrases.
Proof.
  intros Hphrases.
  unfold getSeedPhrases, load, alloc, mutate, bind, prepend. simpl.
  rewrite Hphrases. simpl.
  set (copy := fresh (dom (heap s))).
  assert (Hfresh : heap s !! copy = None).
  { apply not_elem_of_dom. apply is_fresh. }
  assert (Hne : copy ≠ seedPhrases this) by congruence.
  exists copy. split; [ done | ]. split; [ done | ]. split; [ done | ].
  rewrite !lookup_insert_eq. split; [ done | ]. split; [ done | ].
  rewrite !lookup_insert_ne by done. split; [ done | ]. split; [ done | ].
  split.
  - intros maxIndex. apply listWalletsWithBalance_frame; simpl; [ | done ].
    by rewrite !lookup_insert_ne.
  - split; [ intros; by apply transfer_frame | ].
    eexists. split; [ done | ]. by rewrite lookup_insert_eq, Hphrases.
Qed.

End Frame.

(** ** Concrete runs *)

Lemma one_of_two_passes :
  passes_checks (Stub.env Stub.healthy) Stub.junk 0 Stub.recipient "1"
    (Stub.configured [Stub.junk]) one_of_two.
Proof. repeat split; vm_compute; congruence. Defined.

Lemma one_of_two_passes_timing_out :
  passes_checks (Stub.env Stub.timing_out) Stub.junk 0 Stub.recipient "1"
    (Stub.configured [Stub.junk]) one_of_two.
Proof. repeat split; vm_compute; congruence. Defined.

Lemma transfer_submits_at_most_once_witness :
  ∃ r, filter is_submit
         (emitted (transfer (Stub.env Stub.healthy) Stub.junk 0 Stub.recipient "1"
                     (Stub.configured [Stub.junk])))
       = [submit Stub.recipient one_of_two r].
Proof.
  exact (proj2 (proj2 (transfer_submits_at_most_once (Stub.env Stub.healthy) Stub.junk 0
                         Stub.recipient "1" (Stub.configured [Stub.junk])))
           one_of_two one_of_two_passes).
Defined.

(** Two ether out of two: the amount alone is covered, amount plus fee is
    not. *)
Lemma transfer_affordability_witness :
  fails_with (transfer (Stub.env Stub.healthy) Stub.junk 0 Stub.recipient "2"
                (Stub.configured [Stub.junk])) InsufficientFunds ∧
  submits (emitted (transfer (Stub.env Stub.healthy) Stub.junk 0 Stub.recipient "2"
                      (Stub.configured [Stub.junk]))) = 0%nat.
Proof.
  refine (proj1 (proj2 (transfer_affordability (Stub.env Stub.healthy) Stub.junk 0
                          Stub.recipient "2" (Stub.configured [Stub.junk])
                          signer0 (2 * Stub.ether) 1%nat (10 ^ 9) 2%nat (2 * Stub.ether)
                          _ _ _ _ _ _)) _ _);
    vm_compute; congruence.
Defined.

Lemma transfer_unparsable_amount_witness :
  submits (emitted (transfer (Stub.env Stub.healthy) Stub.junk 0 Stub.recipient "abc"
                      (Stub.configured [Stub.junk]))) = 0%nat.
Proof.
  refine (proj1 (proj2 (transfer_unparsable_amount (Stub.env Stub.healthy) Stub.junk 0
                          Stub.recipient "abc" (Stub.configured [Stub.junk]) _))).
  reflexivity.
Defined.

Lemma transfer_invalid_recipient_witness :
  ledger_calls (emitted (transfer (Stub.env Stub.healthy) Stub.junk 0 "nobody" "1"
                           (Stub.configured [Stub.junk]))) = [].
Proof.
  refine (proj2 (proj2 (transfer_invalid_recipient (Stub.env Stub.healthy) Stub.junk 0
                          "nobody" "1" (Stub.configured [Stub.junk]) _))).
  reflexivity.
Defined.

Lemma transfer_reports_timeout_witness :
  fails_with (transfer (Stub.env Stub.timing_out) Stub.junk 0 Stub.recipient "1"
                (Stub.configured [Stub.junk])) Timeout.
Proof.
  refine (proj1 (proj2 (transfer_reports_timeout (Stub.env Stub.timing_out) Stub.junk 0
                          Stub.recipient "1" (Stub.configured [Stub.junk])
                          one_of_two "0xhash" 3%nat (ClientError Timeout) 4%nat
                          one_of_two_passes_timing_out _ _ _)));
    reflexivity.
Defined.

Lemma scan_enumerates_witness :
  derivations (emitted (listWalletsWithBalance (Stub.env Stub.patchy) Stub.wallet
                          (Some 3%nat) (Stub.configured [Stub.junk])))
  = [ (Stub.junk, 0); (Stub.junk, 1); (Stub.junk, 2) ].
Proof.
  refine (proj1 (proj2 (scan_enumerates (Stub.env Stub.patchy) Stub.wallet (Some 3%nat)
                          (Stub.configured [Stub.junk]) [Stub.junk] _))).
  reflexivity.
Defined.

(** A phrase configured twice is scanned twice, and its funded account is
    reported twice. *)
Lemma repeated_phrase_reported_twice :
  ¬ reports_no_pair_twice (Stub.env Stub.healthy) Stub.wallet (Some 1%nat)
      (Stub.configured [Stub.junk; Stub.junk]).
Proof.
  intros Hclaim.
  specialize (Hclaim [Stub.junk; Stub.junk]
                [ (0%nat, (Stub.junk, 0%nat), 2 * Stub.ether);
                  (1%nat, (Stub.junk, 0%nat), 2 * Stub.ether) ]
                [ entry (Stub.env Stub.healthy) signer0 Stub.junk 0 (2 * Stub.ether);
                  entry (Stub.env Stub.healthy) signer0 Stub.junk 0 (2 * Stub.ether) ]
                eq_refl eq_refl).
  assert (NoDup [ (Stub.junk, 0%nat); (Stub.junk, 0%nat) ]) as Hnd.
  { apply Hclaim.
    - reflexivity.
    - repeat constructor; vm_compute; auto. }
  apply NoDup_cons in Hnd as [Hnotin _]. apply Hnotin. left.
Qed.

Example stub_scan_repeated_phrase :
  result (listWalletsWithBalance (Stub.env Stub.healthy) Stub.wallet (Some 1%nat)
            (Stub.configured [Stub.junk; Stub.junk]))
  = Ok [ WalletInfo.mk "0xacc0" "2000000000000000000" "2" 0 "test test test...";
         WalletInfo.mk "0xacc0" "2000000000000000000" "2" 0 "test test test..." ].
Proof. vm_compute. reflexivity. Qed.


Lemma scan_skips_failed_query_witness :
  ∃ found_before found_after,
    result (scan_pairs (Stub.env Stub.patchy) [(Stub.junk, 0%nat)] []
              (Stub.configured [Stub.junk])) = Ok found_before ∧
    result (scan_pairs (Stub.env Stub.patchy) [(Stub.junk, 2%nat)] []
              (Store {[ 0%nat := [Stub.junk] ]} 2%nat)) = Ok found_after ∧
    result (listWalletsWithBalance (Stub.env Stub.patchy) Stub.wallet (Some 3%nat)
              (Stub.configured [Stub.junk])) = Ok (found_before ++ found_after).
Proof.
  destruct (scan_skips_failed_query (Stub.env Stub.patchy) Stub.wallet (Some 3%nat)
              (Stub.configured [Stub.junk]) [Stub.junk]
              [(Stub.junk, 0%nat)] [(Stub.junk, 2%nat)] Stub.junk 1%nat
              signer1 (ClientError NetworkError) 2%nat
              eq_refl eq_refl eq_refl eq_refl eq_refl)
    as (found_before & found_after & H1 & H2 & H3 & _).
  exists found_before, found_after. auto.
Defined.

Lemma getSeedPhrases_returns_copy_witness :
  ∃ copy,
    result (getSeedPhrases Stub.wallet (Stub.configured [Stub.junk])) = Ok copy ∧
    copy ≠ seedPhrases Stub.wallet.
Proof.
  destruct (getSeedPhrases_returns_copy (Stub.env Stub.healthy) Stub.wallet
              (Stub.configured [Stub.junk]) [Stub.junk]
              (fun phrases => phrases ++ ["not a configured phrase"]) eq_refl)
    as (copy & H1 & H2 & _).
  exists copy. auto.
Defined.

(** An amount that is no number is found out only after the balance and the
    fee rate were fetched. *)
Lemma amount_not_validated_first :
  ¬ validates_amount_first (Stub.env Stub.healthy) Stub.junk 0 Stub.recipient "abc"
      (Stub.configured [Stub.junk]).
Proof.
  intros Hclaim. destruct Hclaim as [_ Hcalls].
  - intros (a & Ha & _). vm_compute in Ha. discriminate.
  - vm_compute in Hcalls. discriminate.
Qed.

(** A negative amount is parsed and, the balance allowing, submitted. *)
Example negative_amount_is_submitted :
  filter is_submit
    (emitted (transfer (Stub.env Stub.healthy) Stub.junk 0 Stub.recipient "-1"
                (Stub.configured [Stub.junk])))
  = [ SendTransaction "0xacc0" Stub.recipient (- Stub.ether) (Ok "0xhash") ].
Proof. vm_compute. reflexivity. Qed.


Example stub_scan_bad_phrase :
  listWalletsWithBalance (Stub.env Stub.healthy) Stub.wallet (Some 1%nat)
    (Stub.configured ["not a seed phrase"])
  = Outcome (Ok []) (Stub.configured ["not a seed phrase"])
      [ MnemonicToAccount "not a seed phrase" 0 false;
        ConsoleError "Error checking wallet index 0:" InvalidMnemonic ].
Proof. vm_compute. reflexivity. Qed.

(** * Further properties of the class *)

(** ** The paths of a transfer *)

Section TransferPaths.
Context {W F : Type}.
Variable env : Collaborators W F.
Variables (seedPhrase : string) (walletIndex : Z) (toAddress amountEth : string).
Variable s : store W.

Local Abbreviation run := (transfer env seedPhrase walletIndex toAddress amountEth s).

(** X1: [transfer] returns a hash only for a transaction that was accepted
    and confirmed: the hash is the one [sendTransaction] answered, a receipt
    for that very hash was obtained, and these are the last two ledger
    calls of the run, after the balance and the fee lookup. *)
Theorem transfer_success_is_confirmed (hash : string) :
  result run = Ok hash →
  ∃ c w3 receipt w4,
    passes_checks env seedPhrase walletIndex toAddress amountEth s c ∧
    sendTransaction env (signer c) toAddress (value c) (after_fee c) = (Ok hash, w3) ∧
    waitForTransactionReceipt env hash w3 = (Ok receipt, w4) ∧
    ledger_calls (emitted run) =
      [ GetBalance (Account.address (signer c)) (Ok (balance c));
        GetGasPrice (Ok (gasPrice c));
        submit toAddress c (Ok hash);
        WaitForTransactionReceipt hash (Ok receipt) ] ∧
    final run = Store (heap s) w4.
Proof.
  unfold passes_checks, submit, ledger_calls. unfold_run. split_run.
  all: intros Hok; try discriminate Hok; simplify_eq.
  eexists (Checked _ _ _ _ _ _), _, _, _. simpl. repeat split; eauto; lia.
Qed.

(** X2: when the remote node refuses the transaction, [transfer] fails with
    the node's exception, does not wait for a receipt and prints nothing;
    the refused submission is its last ledger call. *)
Theorem transfer_rejected_stops (c : checked W) (e : exn) (w3 : W) :
  passes_checks env seedPhrase walletIndex toAddress amountEth s c →
  sendTransaction env (signer c) toAddress (value c) (after_fee c) = (Err e, w3) →
  result run = Err e ∧
  ledger_calls (emitted run) =
    [ GetBalance (Account.address (signer c)) (Ok (balance c));
      GetGasPrice (Ok (gasPrice c));
      submit toAddress c (Err e) ] ∧
  filter (fun ev => negb (is_ledger_call ev) && negb (is_derivation ev)) (emitted run) = [] ∧
  final run = Store (heap s) w3.
Proof.
  intros Hc Hsend. rewrite (transfer_rejected env _ _ _ _ _ c e w3 Hc Hsend).
  repeat split.
Qed.

(** X3: when the amount-only comparison fires, [transfer] fails with
    [InsufficientFunds] after the balance query alone: the fee rate is not
    looked up and the amount is not parsed by [parseEther], so even an
    amount [parseEther] would reject is reported as insufficient funds. *)
Theorem transfer_amount_only_fast_fail (account : Account.t) (B : Z) (w1 : W) :
  isAddress env toAddress = true →
  mnemonicToAccount env seedPhrase walletIndex = Some account →
  getBalance env (Account.address account) (ledger s) = (Ok B, w1) →
  gt env (parseFloat env amountEth) (parseFloat env (formatEther env B)) = true →
  run = Outcome (Err (InsufficientBalance amountEth)) (Store (heap s) w1)
          [ MnemonicToAccount seedPhrase walletIndex true;
            GetBalance (Account.address account) (Ok B) ].
Proof.
  intros Haddr Hacc Hbal Hgt. unfold_run. rewrite Haddr. simpl.
  rewrite Hacc. simpl. rewrite Hbal. simpl. by rewrite Hgt.
Qed.

(** X4: a signer that cannot be derived makes [transfer] fail with
    [InvalidSeedPhrase] before any ledger call. *)
Theorem transfer_invalid_seed_phrase :
  isAddress env toAddress = true →
  mnemonicToAccount env seedPhrase walletIndex = None →
  run = Outcome (Err InvalidMnemonic) s [ MnemonicToAccount seedPhrase walletIndex false ] ∧
  fails_with run InvalidSeedPhrase ∧
  ledger_calls (emitted run) = [].
Proof.
  intros Haddr Hacc. unfold fails_with, ledger_calls. unfold_run. rewrite Haddr. simpl.
  rewrite Hacc. simpl. repeat split; eauto.
Qed.

(** X5: a failed read is passed on unchanged and ends the run.  When the
    balance query fails, [transfer] fails with that exception after this
    one call; when the fee lookup fails, it fails with that exception
    after these two calls.  Nothing is submitted either way. *)
Theorem transfer_read_failure (account : Account.t) (e : exn) :
  isAddress env toAddress = true →
  mnemonicToAccount env seedPhrase walletIndex = Some account →
  (∀ w1,
     getBalance env (Account.address account) (ledger s) = (Err e, w1) →
     run = Outcome (Err e) (Store (heap s) w1)
             [ MnemonicToAccount seedPhrase walletIndex true;
               GetBalance (Account.address account) (Err e) ]) ∧
  (∀ B w1 w2,
     getBalance env (Account.address account) (ledger s) = (Ok B, w1) →
     gt env (parseFloat env amountEth) (parseFloat env (formatEther env B)) = false →
     getGasPrice env w1 = (Err e, w2) →
     run = Outcome (Err e) (Store (heap s) w2)
             [ MnemonicToAccount seedPhrase walletIndex true;
               GetBalance (Account.address account) (Ok B);
               GetGasPrice (Err e) ]).
Proof.
  intros Haddr Hacc. split.
  - intros w1 Hbal. unfold_run. rewrite Haddr. simpl. rewrite Hacc. simpl.
    by rewrite Hbal.
  - intros B w1 w2 Hbal Hgt Hfee. unfold_run. rewrite Haddr. simpl. rewrite Hacc. simpl.
    rewrite Hbal. simpl. rewrite Hgt. simpl. by rewrite Hfee.
Qed.

End TransferPaths.

(** ** Balance lookup and scan *)

(** Unfold the first iteration of a scan and split on what it met. *)
Ltac scan_first :=
  rewrite !scan_pairs_cons; unfold bind; rewrite !check_index_run;
  match goal with
  | |- context [ mnemonicToAccount ?env ?p ?i ] =>
      destruct (mnemonicToAccount env p i) as [ account | ] eqn:?; simpl;
      [ match goal with
        | |- context [ getBalance env ?a ?w ] =>
            destruct (getBalance env a w) as [[ balance | e ] w'] eqn:?; simpl
        end
      | ]
  end;
  rewrite ?result_prepend, ?final_prepend, ?emitted_prepend.

Section Reads.
Context {W F : Type}.
Variable env : Collaborators W F.

(** X6: [checkBalance] asks the ledger at most once.  A malformed address
    fails with [InvalidInput] and no call at all; a well-formed one leads
    to exactly one balance query for that address, whose answer is returned
    through [formatEther] and whose failure is passed on unchanged. *)
Theorem checkBalance_single_query (address : string) (s : store W) :
  (isAddress env address = false →
     checkBalance env address s = Outcome (Err (InvalidAddress address)) s [] ∧
     fails_with (checkBalance env address s) InvalidInput) ∧
  (isAddress env address = true →
     ∀ r w, getBalance env address (ledger s) = (r, w) →
       checkBalance env address s =
         Outcome (match r with Ok b => Ok (formatEther env b) | Err e => Err e end)
           (Store (heap s) w) [ GetBalance address r ]).
Proof.
  unfold fails_with. unfold_run. split; intros Haddr; rewrite Haddr; simpl.
  - eauto.
  - intros r w Hbal. rewrite Hbal. by destruct r.
Qed.

Lemma scan_pairs_reads pairs found s :
  Forall (fun ev => is_ledger_call ev = true → ∃ address r, ev = GetBalance address r)
    (emitted (scan_pairs env pairs found s)) ∧
  (length (ledger_calls (emitted (scan_pairs env pairs found s))) ≤ length pairs)%nat ∧
  filter is_console_log
    (emitted (scan_pairs env pairs found s)) = [] ∧
  heap (final (scan_pairs env pairs found s)) = heap s.
Proof.
  unfold ledger_calls.
  revert found s. induction pairs as [ | [p i] pairs IH ]; intros found s.
  - simpl. repeat split; auto.
  - scan_first.
    + destruct (IH (if (0 <? balance)%Z
                    then found ++ [entry env account p i balance] else found)
                  (Store (heap s) w')) as (Hall & Hlen & Hlog & Hheap).
      rewrite !filter_app, length_app, Forall_app. simpl.
      repeat split; [ | done | lia | done | done ].
      repeat (apply Forall_cons; split); [ discriminate | eauto | constructor ].
    + destruct (IH found (Store (heap s) w')) as (Hall & Hlen & Hlog & Hheap).
      rewrite !filter_app, length_app, Forall_app. simpl.
      repeat split; [ | done | lia | done | done ].
      repeat (apply Forall_cons; split); [ discriminate | eauto | discriminate | constructor ].
    + destruct (IH found s) as (Hall & Hlen & Hlog & Hheap).
      rewrite !filter_app, length_app, Forall_app. simpl.
      repeat split; [ | done | lia | done | done ].
      repeat (apply Forall_cons; split); [ discriminate | discriminate | constructor ].
Qed.

(** X7: the scan only reads.  Every ledger call it makes is a balance
    query, there are at most [N * M] of them, it never asks for the fee
    rate, submits or waits, it writes nothing to [console.log], and it
    leaves the heap as it found it. *)
Theorem scan_is_read_only (this : SimpleWallet) (maxIndex : option nat)
    (s : store W) (phrases : list string) :
  heap s !! seedPhrases this = Some phrases →
  (∀ ev, ev ∈ emitted (listWalletsWithBalance env this maxIndex s) →
         is_ledger_call ev = true → ∃ address r, ev = GetBalance address r) ∧
  (length (ledger_calls (emitted (listWalletsWithBalance env this maxIndex s)))
     ≤ length phrases * default 20%nat maxIndex)%nat ∧
  filter is_console_log
    (emitted (listWalletsWithBalance env this maxIndex s)) = [] ∧
  heap (final (listWalletsWithBalance env this maxIndex s)) = heap s.
Proof.
  intros Hphrases. rewrite listWalletsWithBalance_scan, Hphrases. simpl.
  destruct (scan_pairs_reads (enumeration phrases (default 20%nat maxIndex)) [] s)
    as (Hall & Hlen & Hlog & Hheap).
  rewrite length_enumeration in Hlen.
  split; [ | done ]. intros ev Hev. by apply (proj1 (Forall_forall _ _) Hall).
Qed.

Lemma elem_of_enumeration phrases maxIndex p i :
  (p, i) ∈ enumeration phrases maxIndex → p ∈ phrases ∧ (i < maxIndex)%nat.
Proof.
  unfold enumeration. intros Hin.
  apply list_elem_of_bind in Hin as (q & Hin & Hq).
  apply list_elem_of_fmap in Hin as (j & Heq & Hj). simplify_eq.
  apply elem_of_seq in Hj. split; [ done | lia ].
Qed.

(** X8: every entry the scan returns can be derived again from what it
    shows.  It belongs to a configured phrase [p] and an index [i] below
    the bound; its [index] field is [i], its [seedPhrase] field is the
    preview of [p], its address is what [getWalletAddress p i] returns from
    any state, and its two balance fields render one positive balance. *)
Theorem scan_entries_rederivable (this : SimpleWallet) (maxIndex : option nat)
    (s : store W) (phrases : list string) (infos : list WalletInfo.t) :
  heap s !! seedPhrases this = Some phrases →
  result (listWalletsWithBalance env this maxIndex s) = Ok infos →
  ∀ info, info ∈ infos →
    ∃ p i b,
      p ∈ phrases ∧ (i < default 20%nat maxIndex)%nat ∧ 0 < b ∧
      WalletInfo.index info = Z.of_nat i ∧
      WalletInfo.seedPhrase info = preview p ∧
      WalletInfo.balance info = pretty b ∧
      WalletInfo.balanceEth info = formatEther env b ∧
      ∀ s' : store W,
        result (getWalletAddress env p (Some (Z.of_nat i)) s')
          = Ok (WalletInfo.address info).
Proof.
  intros Hphrases. rewrite listWalletsWithBalance_scan, Hphrases. simpl.
  destruct (scan_pairs_selection env (enumeration phrases (default 20%nat maxIndex)) 0 [] s)
    as (sel & infos' & Hres & Hsub & Hent & _).
  rewrite Hres. simpl. intros [= <-] info Hinfo.
  apply list_elem_of_lookup in Hinfo as (n & Hn).
  destruct (Forall2_lookup_r _ _ _ _ _ Hent Hn) as (x & Hx & Hentry).
  destruct Hentry as [k p i b account Hpos Hacc _].
  assert (Hin : (k, (p, i)) ∈ indexed 0 (enumeration phrases (default 20%nat maxIndex))).
  { eapply elem_of_sublist; [ | exact Hsub ].
    apply (list_elem_of_fmap_2' fst _ (k, (p, i), b)); [ | done ].
    by eapply list_elem_of_lookup_2. }
  apply (list_elem_of_fmap_2 snd) in Hin. rewrite snd_indexed in Hin. simpl in Hin.
  apply elem_of_enumeration in Hin as (Hp & Hi).
  exists p, i, b. repeat split; try done.
  intros s'. unfold_run. by rewrite Hacc.
Qed.

(** X9: the account [transfer] works on is the one [getWalletAddress]
    shows.  Every balance query of a transfer asks for, and every
    transaction it submits is sent from, the address that
    [getWalletAddress] returns for the same phrase and index; the
    transaction goes to the recipient given, and its value is what
    [parseEther] makes of the amount given. *)
Theorem transfer_signer_is_wallet_address (seedPhrase : string) (walletIndex : Z)
    (toAddress amountEth : string) (s : store W) (ev : event) :
  ev ∈ emitted (transfer env seedPhrase walletIndex toAddress amountEth s) →
  match ev with
  | GetBalance address _ =>
      ∀ s' : store W,
        result (getWalletAddress env seedPhrase (Some walletIndex) s') = Ok address
  | SendTransaction from to value _ =>
      (∀ s' : store W,
         result (getWalletAddress env seedPhrase (Some walletIndex) s') = Ok from) ∧
      to = toAddress ∧ parseEther env amountEth = Some value
  | _ => True
  end.
Proof.
  unfold_run. split_run; intros Hev.
  all: repeat (apply elem_of_cons in Hev as [-> | Hev]); try by apply elem_of_nil in Hev.
  all: try done.
  all: repeat split; try done; intros s'; simpl;
    match goal with H : mnemonicToAccount _ _ _ = _ |- _ => by rewrite H end.
Qed.

End Reads.

(** ** Strings: previews and keys *)

Lemma string_app_nil_r (s : string) : s +:+ "" = s.
Proof.
  induction s as [ | c s IH ]; [ done | ].
  change (String c (s +:+ "") = String c s). by rewrite IH.
Qed.

Lemma string_app_assoc (s1 s2 s3 : string) : (s1 +:+ s2) +:+ s3 = s1 +:+ s2 +:+ s3.
Proof.
  induction s1 as [ | c s1 IH ]; [ done | ].
  change (String c ((s1 +:+ s2) +:+ s3) = String c (s1 +:+ s2 +:+ s3)). by rewrite IH.
Qed.

Lemma string_length_app (s1 s2 : string) :
  String.length (s1 +:+ s2) = (String.length s1 + String.length s2)%nat.
Proof.
  induction s1 as [ | c s1 IH ]; [ done | ].
  change (S (String.length (s1 +:+ s2)) = S (String.length s1 + String.length s2)).
  by rewrite IH.
Qed.

Lemma split_not_nil sep s : split sep s ≠ [].
Proof. destruct s as [ | c s ]; simpl; [ done | ]. by destruct (Ascii.eqb c sep), (split sep s). Qed.

Lemma join_cons sep w w' ws : join sep (w :: w' :: ws) = w +:+ sep +:+ join sep (w' :: ws).
Proof. reflexivity. Qed.

Lemma join_split sep s : join (String sep "") (split sep s) = s.
Proof.
  induction s as [ | c s IH ]; simpl; [ done | ].
  destruct (Ascii.eqb_spec c sep) as [-> | Hne].
  - pose proof (split_not_nil sep s) as Hnil.
    destruct (split sep s) as [ | w ws ]; [ done | ].
    rewrite join_cons, IH. reflexivity.
  - pose proof (split_not_nil sep s) as Hnil.
    destruct (split sep s) as [ | w ws ]; [ done | ].
    destruct ws as [ | w' ws ].
    + simpl in *. by rewrite IH.
    + rewrite join_cons. rewrite join_cons in IH. by rewrite <- IH.
Qed.

Lemma split_no_sep sep w : has_char sep w = false → split sep w = [w].
Proof.
  induction w as [ | c w IH ]; simpl; [ done | ].
  intros [Hc Hw]%orb_false_iff. rewrite Hc, (IH Hw). done.
Qed.

Lemma split_app_sep sep w rest :
  has_char sep w = false →
  split sep (w +:+ String sep "" +:+ rest) = w :: split sep rest.
Proof.
  induction w as [ | c w IH ]; simpl.
  - intros _. by rewrite Ascii.eqb_refl.
  - intros [Hc Hw]%orb_false_iff. rewrite Hc, (IH Hw). done.
Qed.

Lemma split_join sep ws :
  ws ≠ [] → Forall (fun w => has_char sep w = false) ws →
  split sep (join (String sep "") ws) = ws.
Proof.
  induction ws as [ | w ws IH ]; [ done | ]. intros _ Hall.
  apply Forall_cons in Hall as [Hw Hall].
  destruct ws as [ | w' ws ].
  - simpl. by apply split_no_sep.
  - rewrite join_cons, split_app_sep by done.
    by rewrite IH.
Qed.

Lemma join_take sep k ws : ∃ rest, join sep ws = join sep (take k ws) +:+ rest.
Proof.
  revert k. induction ws as [ | w ws IH ]; intros k.
  - exists "". by destruct k.
  - destruct k as [ | k ]; [ by eexists | ].
    destruct ws as [ | w' ws ].
    + exists "". simpl. destruct k; simpl; by rewrite string_app_nil_r.
    + destruct (IH k) as (rest & Hrest). rewrite join_cons, Hrest.
      destruct k as [ | k ].
      * simpl. eexists. reflexivity.
      * change (take (S (S k)) (w :: w' :: ws)) with (w :: w' :: take k ws).
        rewrite join_cons.
        change (take (S k) (w' :: ws)) with (w' :: take k ws).
        exists rest. by rewrite !string_app_assoc.
Qed.

(** X10: the preview of a phrase is its first three words and three dots.
    For words without spaces, joined by single spaces, the preview shows
    the first three of them and nothing of the others; a phrase of three
    words or fewer is shown whole. *)
Theorem preview_first_three_words (words : list string) :
  words ≠ [] →
  Forall (fun w => has_char " " w = false) words →
  preview (join " " words) = join " " (take 3 words) +:+ "...".
Proof.
  intros Hne Hall. unfold preview, slice0. by rewrite split_join.
Qed.

(** X11: whatever the phrase, what the preview shows before its three
    dots is a prefix of the phrase: the preview never shows a character
    that is not at the start of the phrase. *)
Theorem preview_is_prefix (seedPhrase : string) :
  ∃ shown rest, preview seedPhrase = shown +:+ "..." ∧ seedPhrase = shown +:+ rest.
Proof.
  unfold preview, slice0.
  destruct (join_take " " 3 (split " " seedPhrase)) as (rest & Hrest).
  rewrite join_split in Hrest. eauto.
Qed.

Lemma hex_digit_is_hex n : (n < 16)%N → is_hex_char (hex_digit n) = true.
Proof.
  intros Hn. unfold hex_digit.
  assert (Hlt : (N.to_nat n < 16)%nat) by lia.
  revert Hlt. generalize (N.to_nat n). intros k Hk.
  do 16 (destruct k as [ | k ]; [ reflexivity | ]). lia.
Qed.

Lemma hex_digit_inj a b :
  (a < 16)%N → (b < 16)%N → hex_digit a = hex_digit b → a = b.
Proof.
  intros Ha Hb. unfold hex_digit.
  assert (Hka : (N.to_nat a < 16)%nat) by lia.
  assert (Hkb : (N.to_nat b < 16)%nat) by lia.
  intros Heq. apply N2Nat.inj. revert Hka Hkb Heq.
  generalize (N.to_nat a) (N.to_nat b). intros j k Hj Hk.
  do 16 (destruct j as [ | j ];
         [ do 16 (destruct k as [ | k ]; [ (reflexivity || discriminate) | ]); lia | ]).
  lia.
Qed.

Lemma byte_nibbles_inj (b1 b2 : Byte.byte) :
  hex_digit (Byte.to_N b1 / 16) = hex_digit (Byte.to_N b2 / 16) →
  hex_digit (Byte.to_N b1 mod 16) = hex_digit (Byte.to_N b2 mod 16) →
  b1 = b2.
Proof.
  pose proof (Byte.to_N_bounded b1) as H1. pose proof (Byte.to_N_bounded b2) as H2.
  intros Hhi Hlo.
  apply hex_digit_inj in Hhi;
    [ | apply N.Div0.div_lt_upper_bound; lia | apply N.Div0.div_lt_upper_bound; lia ].
  apply hex_digit_inj in Hlo; [ | by apply N.mod_lt | by apply N.mod_lt ].
  assert (Heq : Byte.to_N b1 = Byte.to_N b2).
  { rewrite (N.div_mod (Byte.to_N b1) 16), (N.div_mod (Byte.to_N b2) 16) by done.
    by rewrite Hhi, Hlo. }
  pose proof (Byte.of_to_N b1) as Hb1. rewrite Heq, Byte.of_to_N in Hb1. congruence.
Qed.

Lemma toString_hex_inj bytes1 bytes2 :
  toString_hex bytes1 = toString_hex bytes2 → bytes1 = bytes2.
Proof.
  revert bytes2. induction bytes1 as [ | b1 bytes1 IH ]; intros [ | b2 bytes2 ];
    simpl; try done.
  intros [= Hhi Hlo Hrest]. f_equal; [ by apply byte_nibbles_inj | by apply IH ].
Qed.

Lemma toString_hex_length bytes :
  String.length (toString_hex bytes) = (2 * length bytes)%nat.
Proof. induction bytes as [ | b bytes IH ]; simpl; [ done | ]. rewrite IH. lia. Qed.

Lemma toString_hex_chars bytes : Forall (fun c => is_hex_char c = true) (chars (toString_hex bytes)).
Proof.
  induction bytes as [ | b bytes IH ]; simpl; [ constructor | ].
  pose proof (Byte.to_N_bounded b) as Hb.
  repeat constructor; [ | | done ]; apply hex_digit_is_hex.
  - apply N.Div0.div_lt_upper_bound. lia.
  - by apply N.mod_lt.
Qed.

Section Keys.
Context {W F : Type}.
Variable env : Collaborators W F.

(** X12: a private key is revealed as [0x] followed by two lower-case
    hexadecimal digits for each byte of the key of the derived account, and
    as nothing else: a 32-byte key gives 66 characters. *)
Theorem getPrivateKey_format (seedPhrase : string) (index : option Z)
    (s : store W) (key : string) :
  result (getPrivateKey env seedPhrase index s) = Ok key →
  ∃ account bytes,
    mnemonicToAccount env seedPhrase (default 0 index) = Some account ∧
    Account.privateKey account = Some bytes ∧
    key = "0x" +:+ toString_hex bytes ∧
    String.length key = (2 + 2 * length bytes)%nat ∧
    Forall (fun c => is_hex_char c = true) (chars (toString_hex bytes)).
Proof.
  unfold_run.
  destruct (mnemonicToAccount env seedPhrase (default 0 index)) as [account | ];
    simpl; [ | done ].
  destruct (Account.privateKey account) as [bytes | ] eqn:Hkey; simpl; [ | done ].
  intros [= <-]. exists account, bytes. repeat split; try done.
  - change (S (S (String.length (toString_hex bytes))) = (2 + 2 * length bytes)%nat).
    by rewrite toString_hex_length.
  - apply toString_hex_chars.
Qed.

(** X13: the revealed string determines the key.  Two calls of
    [getPrivateKey] that return the same string, for whatever phrases,
    indices and states, were made on accounts with the same private key
    bytes. *)
Theorem getPrivateKey_injective (seedPhrase1 seedPhrase2 : string)
    (index1 index2 : option Z) (s1 s2 : store W) (key : string) :
  result (getPrivateKey env seedPhrase1 index1 s1) = Ok key →
  result (getPrivateKey env seedPhrase2 index2 s2) = Ok key →
  ∃ account1 account2 bytes,
    mnemonicToAccount env seedPhrase1 (default 0 index1) = Some account1 ∧
    mnemonicToAccount env seedPhrase2 (default 0 index2) = Some account2 ∧
    Account.privateKey account1 = Some bytes ∧
    Account.privateKey account2 = Some bytes.
Proof.
  unfold_run.
  destruct (mnemonicToAccount env seedPhrase1 (default 0 index1)) as [account1 | ];
    simpl; [ | done ].
  destruct (mnemonicToAccount env seedPhrase2 (default 0 index2)) as [account2 | ];
    simpl; [ | by destruct (Account.privateKey account1) ].
  destruct (Account.privateKey account1) as [bytes1 | ] eqn:Hkey1; simpl; [ | done ].
  destruct (Account.privateKey account2) as [bytes2 | ] eqn:Hkey2; simpl; [ | done ].
  intros [= <-] [= Heq]. apply toString_hex_inj in Heq. subst bytes2.
  by exists account1, account2, bytes1.
Qed.

End Keys.

(** ** The constructor *)

Lemma trimStart_head s :
  trimStart s = "" ∨ ∃ c t, trimStart s = String c t ∧ is_white_space c = false.
Proof.
  induction s as [ | c s IH ]; simpl; [ by left | ].
  destruct (is_white_space c) eqn:Hc; [ done | ]. right. eauto.
Qed.

Lemma trimStart_fixed c t : is_white_space c = false → trimStart (String c t) = String c t.
Proof. intros Hc. simpl. by rewrite Hc. Qed.

Lemma trimEnd_head c s : is_white_space c = false → ∃ t, trimEnd (String c s) = String c t.
Proof. intros Hc. simpl. rewrite Hc. destruct (trimEnd s); eauto. Qed.

Lemma trimEnd_idem s : trimEnd (trimEnd s) = trimEnd s.
Proof.
  induction s as [ | c s IH ]; simpl; [ done | ].
  destruct (trimEnd s) as [ | c' t ] eqn:Ht.
  - destruct (is_white_space c) eqn:Hc; simpl; [ done | by rewrite Hc ].
  - change (trimEnd (String c (String c' t))) with
      (match trimEnd (String c' t) with
       | EmptyString => if is_white_space c then EmptyString else String c EmptyString
       | u => String c u
       end).
    by rewrite IH.
Qed.

(** A trimmed string has nothing left to trim, at either end. *)
Lemma trim_trimmed s : trimStart (trim s) = trim s ∧ trimEnd (trim s) = trim s.
Proof.
  unfold trim. split; [ | apply trimEnd_idem ].
  destruct (trimStart_head s) as [-> | (c & t & -> & Hc)]; [ done | ].
  destruct (trimEnd_head c t Hc) as (u & ->). by apply trimStart_fixed.
Qed.

Lemma trim_idem s : trim (trim s) = trim s.
Proof.
  destruct (trim_trimmed s) as [Hs He]. unfold trim at 1. by rewrite Hs, He.
Qed.

Lemma string_length_0 s : (String.length s =? 0)%nat = false ↔ s ≠ "".
Proof. destruct s; simpl; split; done. Qed.

Lemma phraseKey_inj i j : phraseKey i = phraseKey j → i = j.
Proof.
  unfold phraseKey. intros Heq. apply (inj (String.app "PHRASES_")) in Heq.
  by apply (inj pretty) in Heq.
Qed.

Lemma numbered_phrase_Some env i p :
  numbered_phrase env i = Some p →
  ∃ v, env !! phraseKey i = Some v ∧ p = trim v ∧ p ≠ "".
Proof.
  unfold numbered_phrase.
  destruct (env !! phraseKey i) as [v | ]; simpl; [ | done ].
  destruct v as [ | c v ]; simpl; [ done | ].
  destruct (String.length (trim (String c v)) =? 0)%nat eqn:Hlen; [ done | ].
  intros [= <-]. exists (String c v). repeat split. by apply string_length_0.
Qed.

Lemma read_numbered_phrases_step fuel env i :
  read_numbered_phrases (S fuel) env i =
    match numbered_phrase env i with
    | None => Some []
    | Some p => cons p <$> read_numbered_phrases fuel env (S i)
    end.
Proof.
  unfold numbered_phrase, read_numbered_phrases. fold read_numbered_phrases.
  by destruct (negb (truthy (env !! phraseKey i))
               || (String.length (trim (default "" (env !! phraseKey i))) =? 0)%nat).
Qed.

(** More fuel does not change what the loop returns. *)
Lemma read_numbered_phrases_more fuel fuel' env i l :
  read_numbered_phrases fuel env i = Some l → (fuel ≤ fuel')%nat →
  read_numbered_phrases fuel' env i = Some l.
Proof.
  revert fuel' i l. induction fuel as [ | fuel IH ]; intros fuel' i l; [ done | ].
  intros Hread Hle. destruct fuel' as [ | fuel' ]; [ lia | ].
  rewrite read_numbered_phrases_step in *.
  destruct (numbered_phrase env i) as [p | ]; [ | done ].
  destruct (read_numbered_phrases fuel env (S i)) as [l' | ] eqn:Hrest; [ | done ].
  rewrite (IH fuel' (S i) l'); [ done | done | lia ].
Qed.

(** A loop that uses up its fuel found a variable at every index it read. *)
Lemma read_numbered_phrases_None fuel env i :
  read_numbered_phrases fuel env i = None →
  ∀ j, (j < fuel)%nat → phraseKey (i + j) ∈ dom env.
Proof.
  revert i. induction fuel as [ | fuel IH ]; intros i Hnone j Hj; [ lia | ].
  rewrite read_numbered_phrases_step in Hnone.
  destruct (numbered_phrase env i) as [p | ] eqn:Hp; [ | done ].
  destruct (read_numbered_phrases fuel env (S i)) as [l' | ] eqn:Hrest; [ done | ].
  destruct j as [ | j ].
  - apply numbered_phrase_Some in Hp as (v & Hv & _).
    rewrite Nat.add_0_r. apply elem_of_dom. eauto.
  - replace (i + S j)%nat with (S i + j)%nat by lia. apply (IH (S i)); [ done | lia ].
Qed.

Lemma read_numbered_phrases_terminates env :
  is_Some (read_numbered_phrases (S (size env)) env 0).
Proof.
  destruct (read_numbered_phrases (S (size env)) env 0) as [l | ] eqn:Hread; [ eauto | ].
  exfalso.
  pose proof (read_numbered_phrases_None _ _ _ Hread) as Hkeys.
  set (keys := phraseKey <$> seq 0 (S (size env))).
  assert (Hnd : NoDup keys).
  { apply NoDup_fmap_2; [ intros i j; apply phraseKey_inj | apply NoDup_seq ]. }
  assert (Hsub : (list_to_set keys : gset string) ⊆ dom env).
  { intros k Hk. apply elem_of_list_to_set in Hk.
    apply list_elem_of_fmap in Hk as (j & -> & Hj). apply elem_of_seq in Hj.
    apply (Hkeys j). lia. }
  apply subseteq_size in Hsub.
  rewrite size_list_to_set in Hsub by done.
  unfold keys in Hsub. rewrite length_fmap, length_seq, size_dom in Hsub. lia.
Qed.

Lemma read_numbered_phrases_adequate env fuel l :
  read_numbered_phrases fuel env 0 = Some l →
  read_numbered_phrases (S (size env)) env 0 = Some l.
Proof.
  intros Hread.
  destruct (read_numbered_phrases_terminates env) as (l' & Hl').
  pose proof (read_numbered_phrases_more _ (fuel + S (size env)) _ _ _ Hread) as H1.
  pose proof (read_numbered_phrases_more _ (fuel + S (size env)) _ _ _ Hl') as H2.
  rewrite H1 in H2 by lia. rewrite Hl'. symmetry. apply H2. lia.
Qed.

(** X14: the constructor terminates.  Its [while (true)] loop over
    [PHRASES_0], [PHRASES_1], ... stops by itself after reading at most one
    name more than the environment has variables, and more fuel never
    changes what it returns. *)
Theorem new_SimpleWallet_terminates (env : gmap string string) :
  is_Some (new_SimpleWallet env) ∧
  ∀ fuel l,
    read_numbered_phrases fuel env 0 = Some l →
    read_numbered_phrases (S (size env)) env 0 = Some l.
Proof.
  split; [ | intros fuel l; apply read_numbered_phrases_adequate ].
  unfold new_SimpleWallet.
  destruct (negb (truthy (env !! "RPC_URL"))); [ eauto | ].
  destruct (read_numbered_phrases_terminates env) as (numbered & ->). simpl.
  match goal with |- is_Some (if ?b then _ else _) => destruct b end; eauto.
Qed.

Lemma read_numbered_phrases_prefix env n i :
  (∀ j, (j < n)%nat → is_Some (numbered_phrase env (i + j))) →
  numbered_phrase env (i + n) = None →
  read_numbered_phrases (S n) env i
  = Some ((fun j => trim (default "" (env !! phraseKey j))) <$> seq i n).
Proof.
  revert i. induction n as [ | n IH ]; intros i Hgood Hgap.
  - rewrite read_numbered_phrases_step. rewrite Nat.add_0_r in Hgap. by rewrite Hgap.
  - rewrite read_numbered_phrases_step.
    destruct (Hgood 0%nat) as (p & Hp); [ lia | ]. rewrite Nat.add_0_r in Hp. rewrite Hp.
    rewrite (IH (S i)).
    + simpl. do 2 f_equal. apply numbered_phrase_Some in Hp as (v & Hv & -> & _).
      by rewrite Hv.
    + intros j Hj. replace (S i + j)%nat with (i + S j)%nat by lia. apply Hgood. lia.
    + by replace (S i + n)%nat with (i + S n)%nat by lia.
Qed.

Lemma read_numbered_phrases_trimmed fuel env i l :
  read_numbered_phrases fuel env i = Some l →
  Forall (fun p => p ≠ "" ∧ trim p = p) l.
Proof.
  revert i l. induction fuel as [ | fuel IH ]; intros i l; [ done | ].
  rewrite read_numbered_phrases_step.
  destruct (numbered_phrase env i) as [p | ] eqn:Hp; [ | by intros [= <-] ].
  destruct (read_numbered_phrases fuel env (S i)) as [l' | ] eqn:Hrest; [ | done ].
  intros [= <-]. constructor; [ | by eapply IH ].
  apply numbered_phrase_Some in Hp as (v & _ & -> & Hne). split; [ done | apply trim_idem ].
Qed.

Lemma split_phrases_trimmed phrases :
  Forall (fun p => p ≠ "" ∧ trim p = p) (split_phrases phrases).
Proof.
  unfold split_phrases. apply Forall_forall. intros p Hp.
  apply list_elem_of_filter in Hp as [Hlen Hp].
  apply list_elem_of_fmap in Hp as (w & -> & _).
  split; [ | apply trim_idem ]. intros Heq. rewrite Heq in Hlen. done.
Qed.

Lemma length_0_nil {A} (l : list A) : (length l =? 0)%nat = true ↔ l = [].
Proof. destruct l; simpl; split; done. Qed.

Lemma truthy_Some v : truthy v = true → ∃ s, v = Some s ∧ s ≠ "".
Proof. destruct v as [ [ | c s ] | ]; simpl; try done. eauto. Qed.

(** X15: the numbered variables are read up to the first gap and take
    precedence.  When [PHRASES_0] ... [PHRASES_(n-1)] are set to non-blank
    values and [PHRASES_n] is unset or blank, the wallet is configured with
    exactly these [n] values, trimmed, in order: numbered variables after
    the gap and the legacy [PHRASES] variable are not looked at. *)
Theorem new_SimpleWallet_numbered (env : gmap string string) (url : string) (n : nat) :
  env !! "RPC_URL" = Some url → url ≠ "" →
  (0 < n)%nat →
  (∀ j, (j < n)%nat → is_Some (numbered_phrase env j)) →
  numbered_phrase env n = None →
  new_SimpleWallet env
  = Some (inr (url, (fun j => trim (default "" (env !! phraseKey j))) <$> seq 0 n)).
Proof.
  intros Hurl Hne Hn Hgood Hgap. unfold new_SimpleWallet.
  rewrite (read_numbered_phrases_adequate env (S n) _
             (read_numbered_phrases_prefix env n 0 Hgood Hgap)).
  rewrite Hurl. destruct url as [ | c url ]; [ done | ].
  destruct n as [ | n ]; [ lia | ]. reflexivity.
Qed.

(** X16: a wallet that is constructed has a non-empty endpoint and at
    least one seed phrase, and every seed phrase is non-empty and trimmed:
    trimming it again, at either end, changes nothing. *)
Theorem new_SimpleWallet_invariant (env : gmap string string) (url : string)
    (phrases : list string) :
  new_SimpleWallet env = Some (inr (url, phrases)) →
  env !! "RPC_URL" = Some url ∧ url ≠ "" ∧
  phrases ≠ [] ∧
  Forall (fun p => p ≠ "" ∧ trim p = p) phrases.
Proof.
  unfold new_SimpleWallet.
  destruct (truthy (env !! "RPC_URL")) eqn:Hurl; simpl; [ | done ].
  apply truthy_Some in Hurl as (u & Hu & Hne). rewrite Hu. simpl.
  destruct (read_numbered_phrases (S (size env)) env 0) as [numbered | ] eqn:Hread;
    simpl; [ | done ].
  pose proof (read_numbered_phrases_trimmed _ _ _ _ Hread) as Hnum.
  pose proof (split_phrases_trimmed (default "" (env !! "PHRASES"))) as Hleg.
  match goal with
  | |- (if (length ?l =? 0)%nat then _ else _) = _ → _ =>
      assert (Hall : Forall (fun p => p ≠ "" ∧ trim p = p) l);
      [ | destruct (length l =? 0)%nat eqn:Hlen; [ done | ] ]
  end.
  - destruct (length numbered =? 0)%nat; [ | done ].
    by destruct (truthy (env !! "PHRASES")).
  - intros [= <- <-]. repeat split; try done.
    intros Hnil. rewrite Hnil in Hlen. done.
Qed.

(** X17: without a usable [PHRASES_0] the later constructor configures
    what the earlier one did.  When [PHRASES_0] is unset or blank, the
    later version succeeds exactly when the earlier version does, with the
    same endpoint and the same seed phrases, read from [PHRASES]. *)
Theorem new_SimpleWallet_legacy_compatible (env : gmap string string)
    (config : string * list string) :
  numbered_phrase env 0 = None →
  new_SimpleWallet env = Some (inr config) ↔ new_SimpleWallet_legacy env = inr config.
Proof.
  intros Hgap. unfold new_SimpleWallet, new_SimpleWallet_legacy.
  rewrite read_numbered_phrases_step, Hgap.
  destruct (truthy (env !! "RPC_URL")); simpl; [ | done ].
  destruct (truthy (env !! "PHRASES")); simpl; [ | done ].
  destruct (length (split_phrases (default "" (env !! "PHRASES"))) =? 0)%nat;
    split; intros H; by simplify_eq.
Qed.

(** ** Command-line mode *)

Lemma or_else_at_number_elem (a : list string) (n : option Z) (first : string) :
  first ∈ a → or_else (at_number a n) first ∈ a.
Proof.
  intros Hfirst. unfold or_else.
  destruct (truthy (at_number a n)) eqn:Htruthy; [ | done ].
  apply truthy_Some in Htruthy as (p & Hp & _). rewrite Hp. simpl.
  unfold at_number in Hp. destruct n as [z | ]; [ | done ].
  destruct (0 <=? z)%Z; [ | done ]. by eapply list_elem_of_lookup_2.
Qed.

Lemma truthy_default v : truthy v = true → v = Some (default "" v) ∧ default "" v ≠ "".
Proof. intros (s & -> & Hne)%truthy_Some. done. Qed.

(** X18: the [transfer] command reaches [wallet.transfer] only with at
    least four operands after the command word.  The recipient and the
    amount are then the third and the fourth operand, both non-empty, the
    wallet index is read from the second, and the signing phrase is one of
    the configured phrases. *)
Theorem transfer_command_needs_four_operands (parseInt : string → option Z)
    (seedPhrases args : list string)
    (seedPhrase : string) (walletIndex : option Z) (toAddress amount : string) :
  main_dispatch parseInt seedPhrases args
    = Transfer seedPhrase walletIndex toAddress amount →
  (5 ≤ length args)%nat ∧
  args !! 0%nat = Some "transfer" ∧
  walletIndex = parseInt (or_else (args !! 2%nat) "0") ∧
  args !! 3%nat = Some toAddress ∧ toAddress ≠ "" ∧
  args !! 4%nat = Some amount ∧ amount ≠ "" ∧
  seedPhrase ∈ seedPhrases.
Proof.
  unfold main_dispatch.
  destruct (truthy (args !! 0%nat)) eqn:Hcommand; cbn [negb]; [ | done ].
  apply truthy_default in Hcommand as [Hcommand _].
  destruct (String.eqb_spec (default "" (args !! 0%nat)) "list"); [ done | ].
  destruct (String.eqb_spec (default "" (args !! 0%nat)) "balance");
    [ by destruct (truthy (args !! 1%nat)) | ].
  destruct (String.eqb_spec (default "" (args !! 0%nat)) "transfer") as [Heq | ].
  - rewrite Heq in Hcommand. destruct seedPhrases as [ | first rest ]; [ done | ].
    destruct (Nat.leb_spec 4 (length args)) as [Hlen | Hlen].
    + destruct (truthy (args !! 3%nat)) eqn:Hto; simpl; [ | done ].
      destruct (truthy (args !! 4%nat)) eqn:Hamount; simpl; [ | done ].
      apply truthy_default in Hto as [Hto Hto'].
      apply truthy_default in Hamount as [Hamount Hamount'].
      intros [= <- <- <- <-]. repeat split; try done.
      * apply lookup_lt_Some in Hamount. lia.
      * apply or_else_at_number_elem. left.
    + destruct (truthy (args !! 2%nat)) eqn:Hto; simpl; [ | done ].
      destruct (truthy (args !! 3%nat)) eqn:Hamount; simpl; [ | done ].
      apply truthy_default in Hamount as [Hamount _].
      apply lookup_lt_Some in Hamount. lia.
  - destruct (String.eqb (default "" (args !! 0%nat)) "address");
      [ by destruct seedPhrases | ].
    destruct (String.eqb (default "" (args !! 0%nat)) "privatekey"
              || String.eqb (default "" (args !! 0%nat)) "key");
      [ by destruct seedPhrases | done ].
Qed.

(** X19: the command line of the earlier version is refused by the later
    one.  [transfer <walletIndex> <to> <amount>], which the earlier [main]
    turns into a transfer signed by the first phrase of [PHRASES], makes
    the later [main] print its usage line: with three operands it takes the
    amount from a fifth argument that is not there. *)
Theorem old_transfer_command_line_refused (parseInt : string → option Z)
    (env : gmap string string) (seedPhrases : list string)
    (first walletIndex toAddress amount : string) :
  seedPhrases ≠ [] →
  first ≠ "" → toAddress ≠ "" → amount ≠ "" →
  (∃ phrases, env !! "PHRASES" = Some phrases ∧
     trim <$> split_class semicolon_or_newline phrases !! 0%nat = Some first) →
  main_dispatch_legacy_transfer parseInt env ["transfer"; walletIndex; toAddress; amount]
    = Transfer first (parseInt (or_else (Some walletIndex) "0")) toAddress amount ∧
  main_dispatch parseInt seedPhrases ["transfer"; walletIndex; toAddress; amount]
    = Usage transfer_usage.
Proof.
  intros Hne Hfirst Hto Hamount (phrases & Hphrases & Hseg). split.
  - unfold main_dispatch_legacy_transfer. rewrite Hphrases, Hseg. simpl.
    destruct first; [ done | ]. destruct toAddress; [ done | ]. by destruct amount.
  - unfold main_dispatch. simpl. destruct seedPhrases as [ | p ps ]; [ congruence | ].
    by destruct amount.
Qed.

(** X20: whatever the arguments, the command line never uses a phrase that
    is not configured: the phrase handed to [transfer], [getWalletAddress]
    or [getPrivateKey] is one of the wallet's seed phrases, also when the
    phrase index is negative, too large or not a number. *)
Theorem command_line_uses_configured_phrase (parseInt : string → option Z)
    (seedPhrases args : list string) :
  match main_dispatch parseInt seedPhrases args with
  | Transfer seedPhrase _ _ _ | GetAddress seedPhrase _ | GetPrivateKey seedPhrase _ =>
      seedPhrase ∈ seedPhrases
  | _ => True
  end.
Proof.
  unfold main_dispatch.
  destruct (truthy (args !! 0%nat)); cbn [negb]; [ | done ].
  destruct (String.eqb _ "list"); [ done | ].
  destruct (String.eqb _ "balance"); [ by destruct (truthy (args !! 1%nat)) | ].
  destruct (String.eqb _ "transfer").
  { destruct seedPhrases as [ | first rest ]; [ done | ].
    destruct (4 <=? length args)%nat;
      match goal with |- context [ if ?b then Usage _ else _ ] => destruct b end;
      try done; apply or_else_at_number_elem; left. }
  destruct (String.eqb _ "address").
  { destruct seedPhrases as [ | first rest ]; [ done | ].
    apply or_else_at_number_elem. left. }
  destruct (String.eqb _ "privatekey" || String.eqb _ "key"); [ | done ].
  destruct seedPhrases as [ | first rest ]; [ done | ].
  apply or_else_at_number_elem. left.
Qed.

(** ** Balance scan: nothing to report *)

Section Empty.
Context {W F : Type}.
Variable env : Collaborators W F.

Lemma scan_pairs_no_positive pairs s :
  (∀ address w b w', getBalance env address w = (Ok b, w') → b <= 0) →
  result (scan_pairs env pairs [] s) = Ok [].
Proof.
  intros Hzero. revert s. induction pairs as [ | [p i] pairs IH ]; intros s; [ done | ].
  scan_first; [ | apply IH | apply IH ].
  destruct (Z.ltb_spec 0 balance) as [Hpos | _]; [ | apply IH ].
  match goal with H : getBalance _ _ _ = _ |- _ => apply Hzero in H end. lia.
Qed.

(** X21: when the ledger reports no positive balance, the scan returns the
    empty list, however many phrases and indices it went through and
    however many of its queries failed. *)
Theorem scan_without_positive_balance (this : SimpleWallet) (maxIndex : option nat)
    (s : store W) :
  (∀ address w b w', getBalance env address w = (Ok b, w') → b <= 0) →
  result (listWalletsWithBalance env this maxIndex s) = Ok [].
Proof.
  intros Hzero. rewrite listWalletsWithBalance_scan. by apply scan_pairs_no_positive.
Qed.

End Empty.

(** ** Concrete runs of the further properties *)

Lemma one_of_two_passes_rejecting :
  passes_checks (Stub.env rejecting) Stub.junk 0 Stub.recipient "1"
    (Stub.configured [Stub.junk]) one_of_two.
Proof. repeat split; vm_compute; congruence. Defined.

Lemma transfer_success_is_confirmed_witness :
  ∃ c w3 receipt w4,
    passes_checks (Stub.env Stub.healthy) Stub.junk 0 Stub.recipient "1"
      (Stub.configured [Stub.junk]) c ∧
    sendTransaction (Stub.env Stub.healthy) (signer c) Stub.recipient (value c) (after_fee c)
      = (Ok "0xhash", w3) ∧
    waitForTransactionReceipt (Stub.env Stub.healthy) "0xhash" w3 = (Ok receipt, w4) ∧
    ledger_calls (emitted (transfer (Stub.env Stub.healthy) Stub.junk 0 Stub.recipient "1"
                             (Stub.configured [Stub.junk]))) =
      [ GetBalance (Account.address (signer c)) (Ok (balance c));
        GetGasPrice (Ok (gasPrice c));
        submit Stub.recipient c (Ok "0xhash");
        WaitForTransactionReceipt "0xhash" (Ok receipt) ] ∧
    final (transfer (Stub.env Stub.healthy) Stub.junk 0 Stub.recipient "1"
             (Stub.configured [Stub.junk]))
      = Store (heap (Stub.configured [Stub.junk])) w4.
Proof.
  apply (transfer_success_is_confirmed (Stub.env Stub.healthy) Stub.junk 0 Stub.recipient
           "1" (Stub.configured [Stub.junk]) "0xhash").
  reflexivity.
Defined.

Lemma transfer_rejected_stops_witness :
  result (transfer (Stub.env rejecting) Stub.junk 0 Stub.recipient "1"
            (Stub.configured [Stub.junk]))
  = Err (ClientError RejectedTransaction).
Proof.
  refine (proj1 (transfer_rejected_stops (Stub.env rejecting) Stub.junk 0 Stub.recipient
                   "1" (Stub.configured [Stub.junk]) one_of_two
                   (ClientError RejectedTransaction) 3%nat
                   one_of_two_passes_rejecting _)).
  reflexivity.
Defined.

Lemma transfer_amount_only_fast_fail_witness :
  transfer (Stub.env Stub.healthy) Stub.junk 0 Stub.recipient "3"
    (Stub.configured [Stub.junk])
  = Outcome (Err (InsufficientBalance "3")) (Store (heap (Stub.configured [Stub.junk])) 1%nat)
      [ MnemonicToAccount Stub.junk 0 true;
        GetBalance "0xacc0" (Ok (2 * Stub.ether)) ].
Proof.
  refine (transfer_amount_only_fast_fail (Stub.env Stub.healthy) Stub.junk 0
            Stub.recipient "3" (Stub.configured [Stub.junk])
            signer0 (2 * Stub.ether) 1%nat _ _ _ _); reflexivity.
Defined.

Lemma transfer_invalid_seed_phrase_witness :
  fails_with (transfer (Stub.env Stub.healthy) "not a seed phrase" 0 Stub.recipient "1"
                (Stub.configured [Stub.junk])) InvalidSeedPhrase.
Proof.
  refine (proj1 (proj2 (transfer_invalid_seed_phrase (Stub.env Stub.healthy)
                          "not a seed phrase" 0 Stub.recipient "1"
                          (Stub.configured [Stub.junk]) _ _))); reflexivity.
Defined.

Lemma transfer_read_failure_witness :
  transfer (Stub.env offline) Stub.junk 0 Stub.recipient "1" (Stub.configured [Stub.junk])
  = Outcome (Err (ClientError NetworkError))
      (Store (heap (Stub.configured [Stub.junk])) 1%nat)
      [ MnemonicToAccount Stub.junk 0 true;
        GetBalance "0xacc0" (Err (ClientError NetworkError)) ].
Proof.
  refine (proj1 (transfer_read_failure (Stub.env offline) Stub.junk 0 Stub.recipient "1"
                   (Stub.configured [Stub.junk]) signer0 (ClientError NetworkError) _ _)
            1%nat _); reflexivity.
Defined.

Lemma transfer_signer_is_wallet_address_witness :
  result (getWalletAddress (Stub.env Stub.healthy) Stub.junk (Some 0)
            (Stub.configured [Stub.junk])) = Ok "0xacc0".
Proof.
  refine (proj1 (transfer_signer_is_wallet_address (Stub.env Stub.healthy) Stub.junk 0
                   Stub.recipient "1" (Stub.configured [Stub.junk])
                   (SendTransaction "0xacc0" Stub.recipient Stub.ether (Ok "0xhash")) _)
            (Stub.configured [Stub.junk])).
  vm_compute. do 3 right. left.
Defined.

Lemma scan_is_read_only_witness :
  (length (ledger_calls (emitted (listWalletsWithBalance (Stub.env Stub.patchy) Stub.wallet
                                    (Some 3%nat) (Stub.configured [Stub.junk]))))
   ≤ 1 * 3)%nat.
Proof.
  refine (proj1 (proj2 (scan_is_read_only (Stub.env Stub.patchy) Stub.wallet (Some 3%nat)
                          (Stub.configured [Stub.junk]) [Stub.junk] _))).
  reflexivity.
Defined.

Lemma scan_entries_rederivable_witness :
  ∃ p i b,
    p ∈ [Stub.junk] ∧ (i < 3)%nat ∧ 0 < b ∧
    WalletInfo.index (WalletInfo.mk "0xacc0" "1000" "0.000000000000001" 0 "test test test...")
      = Z.of_nat i.
Proof.
  destruct (scan_entries_rederivable (Stub.env Stub.patchy) Stub.wallet (Some 3%nat)
              (Stub.configured [Stub.junk]) [Stub.junk]
              [ WalletInfo.mk "0xacc0" "1000" "0.000000000000001" 0 "test test test...";
                WalletInfo.mk "0xacc2" "3000000000000000000" "3" 2 "test test test..." ]
              eq_refl eq_refl
              (WalletInfo.mk "0xacc0" "1000" "0.000000000000001" 0 "test test test...")
              (list_elem_of_here _ _))
    as (p & i & b & Hp & Hi & Hb & Hindex & _).
  exists p, i, b. auto.
Defined.

Lemma scan_without_positive_balance_witness :
  result (listWalletsWithBalance (Stub.env penniless) Stub.wallet (Some 1%nat)
            (Stub.configured [Stub.junk])) = Ok [].
Proof.
  apply (scan_without_positive_balance (Stub.env penniless) Stub.wallet (Some 1%nat)
           (Stub.configured [Stub.junk])).
  intros address w b w' [= <- _]. lia.
Defined.

Lemma preview_first_three_words_witness :
  preview (join " " twelve_words) = "test test test...".
Proof.
  apply (preview_first_three_words twelve_words).
  - discriminate.
  - repeat constructor.
Defined.

Lemma getPrivateKey_format_witness :
  ∃ account bytes,
    Stub.derive Stub.junk 0 = Some account ∧
    Account.privateKey account = Some bytes ∧
    "0xac09" = "0x" +:+ toString_hex bytes.
Proof.
  destruct (getPrivateKey_format (Stub.env Stub.healthy) Stub.junk None
              (Stub.configured [Stub.junk]) "0xac09" eq_refl)
    as (account & bytes & Hacc & Hkey & Hhex & _).
  exists account, bytes. auto.
Defined.

Lemma getPrivateKey_injective_witness :
  ∃ account1 account2 bytes,
    Stub.derive Stub.junk 0 = Some account1 ∧
    Stub.derive Stub.junk 1 = Some account2 ∧
    Account.privateKey account1 = Some bytes ∧
    Account.privateKey account2 = Some bytes.
Proof.
  apply (getPrivateKey_injective (Stub.env Stub.healthy) Stub.junk Stub.junk
           (Some 0) (Some 1) (Stub.configured [Stub.junk]) (Stub.configured [Stub.junk])
           "0xac09"); reflexivity.
Defined.

Lemma new_SimpleWallet_numbered_witness :
  new_SimpleWallet dotenv_numbered = Some (inr ("http://node", ["first phrase"])).
Proof.
  apply (new_SimpleWallet_numbered dotenv_numbered "http://node" 1).
  - reflexivity.
  - discriminate.
  - lia.
  - intros j Hj. assert (j = 0%nat) as -> by lia. vm_compute. eauto.
  - reflexivity.
Defined.

Lemma new_SimpleWallet_invariant_witness :
  dotenv_legacy !! "RPC_URL" = Some "http://node" ∧ "http://node" ≠ "" ∧
  ["legacy one"; "legacy two"] ≠ [] ∧
  Forall (fun p => p ≠ "" ∧ trim p = p) ["legacy one"; "legacy two"].
Proof.
  apply (new_SimpleWallet_invariant dotenv_legacy "http://node"
           ["legacy one"; "legacy two"]).
  vm_compute. reflexivity.
Defined.

Lemma new_SimpleWallet_legacy_compatible_witness :
  new_SimpleWallet dotenv_legacy = Some (inr ("http://node", ["legacy one"; "legacy two"]))
  ↔ new_SimpleWallet_legacy dotenv_legacy
    = inr ("http://node", ["legacy one"; "legacy two"]).
Proof.
  apply (new_SimpleWallet_legacy_compatible dotenv_legacy
           ("http://node", ["legacy one"; "legacy two"])).
  reflexivity.
Defined.

Lemma transfer_command_needs_four_operands_witness :
  (5 ≤ length ["transfer"; "1"; "2"; Stub.recipient; "1"])%nat.
Proof.
  refine (proj1 (transfer_command_needs_four_operands parse_int
                   [Stub.junk; "second phrase"] ["transfer"; "1"; "2"; Stub.recipient; "1"]
                   "second phrase" (Some 2) Stub.recipient "1" _)).
  reflexivity.
Defined.

Lemma old_transfer_command_line_refused_witness :
  main_dispatch parse_int [Stub.junk] ["transfer"; "0"; Stub.recipient; "1"]
  = Usage transfer_usage.
Proof.
  refine (proj2 (old_transfer_command_line_refused parse_int dotenv_legacy [Stub.junk]
                   "legacy one" "0" Stub.recipient "1" _ _ _ _ _)); try discriminate.
  exists "legacy one;legacy two". split; reflexivity.
Defined.

(** ** Interactive mode *)

Lemma selected_phrase_elem parseInt seedPhrases first seedIndex :
  first ∈ seedPhrases → selected_phrase parseInt seedPhrases first seedIndex ∈ seedPhrases.
Proof.
  intros Hfirst. unfold selected_phrase.
  destruct (parseInt seedIndex) as [n | ]; [ | done ].
  destruct ((0 <=? n - 1)%Z && (n - 1 <? Z.of_nat (length seedPhrases))%Z); [ | done ].
  destruct (seedPhrases !! Z.to_nat (n - 1)) as [p | ] eqn:Hp; simpl; [ | done ].
  by eapply list_elem_of_lookup_2.
Qed.

(** X22: the interactive transfer calls [wallet.transfer] only on checked
    input.  The signing phrase is one of the configured phrases, whatever
    was typed at the selection prompt; the recipient and the amount are
    passed trimmed and are never blank; and at least three lines were
    typed. *)
Theorem handleTransfer_passes_checked_input (parseInt : string → option Z)
    (seedPhrases answers : list string)
    (seedPhrase : string) (walletIndex : Z) (toAddress amount : string) :
  handleTransfer_dialogue parseInt seedPhrases answers
    = CallsTransfer seedPhrase walletIndex toAddress amount →
  seedPhrase ∈ seedPhrases ∧
  toAddress ≠ "" ∧ trim toAddress = toAddress ∧
  amount ≠ "" ∧ trim amount = amount ∧
  (3 ≤ length answers)%nat.
Proof.
  unfold handleTransfer_dialogue.
  destruct seedPhrases as [ | first rest ]; [ done | ].
  assert (Hfirst : first ∈ first :: rest) by left.
  revert Hfirst. generalize (first :: rest). intros phrases Hfirst.
  assert (Hfinish : ∀ sp rest',
    sp ∈ phrases →
    match rest' with
    | [] => Waits
    | walletIndexStr :: answers' =>
        match answers' with
        | [] => Waits
        | to :: answers'' =>
            if (String.length (trim to) =? 0)%nat then SaysRecipientEmpty else
            match answers'' with
            | [] => Waits
            | amt :: _ =>
                if (String.length (trim amt) =? 0)%nat then SaysAmountEmpty
                else CallsTransfer sp (default 0 (parseInt walletIndexStr)) (trim to) (trim amt)
            end
        end
    end = CallsTransfer seedPhrase walletIndex toAddress amount →
    seedPhrase ∈ phrases ∧ toAddress ≠ "" ∧ trim toAddress = toAddress ∧
    amount ≠ "" ∧ trim amount = amount ∧ (3 ≤ length rest')%nat).
  { intros sp rest' Hsp.
    destruct rest' as [ | w [ | to [ | amt rest' ] ] ]; try done.
    - by destruct (String.length (trim to) =? 0)%nat.
    - destruct (String.length (trim to) =? 0)%nat eqn:Hto; [ done | ].
      destruct (String.length (trim amt) =? 0)%nat eqn:Hamt; [ done | ].
      intros [= <- <- <- <-]. apply string_length_0 in Hto, Hamt.
      repeat split; try done; try apply trim_idem. simpl. lia. }
  destruct (1 <? length phrases)%nat.
  - destruct answers as [ | seedIndex answers ]; [ done | ].
    intros Hcall. apply Hfinish in Hcall; [ | by apply selected_phrase_elem ].
    destruct Hcall as (? & ? & ? & ? & ? & ?). repeat split; try done. simpl. lia.
  - intros Hcall. by apply Hfinish in Hcall.
Qed.

Lemma handleTransfer_passes_checked_input_witness :
  Stub.junk ∈ ["first phrase"; Stub.junk] ∧ Stub.recipient ≠ "".
Proof.
  destruct (handleTransfer_passes_checked_input parse_int ["first phrase"; Stub.junk]
              ["2"; "1"; " 0x70997970C51812dc3A010C7d01b50e0d17dc79C8 "; "1 "]
              Stub.junk 1 Stub.recipient "1" eq_refl)
    as (H1 & H2 & _).
  split; assumption.
Defined.
